(** * go-proxy-server: the authentication gate, the two relays and the dispatcher

    A shallow embedding of [main.go] (package [main] of go-proxy-server) and
    of the parts of the Go standard library its handlers call, followed by
    the properties of the authenticator, of the plain relay [handleHTTP], of
    the tunnel relay [handleHTTPS] and of the dispatcher [ServeHTTP].

    Go strings are byte sequences: they are [string]s here, one [ascii] per
    byte.  Go's [int] values are [Z].  A [http.Header], a
    [map[string][]string], is a [gmap string (list string)]. *)

From Stdlib Require Import ZArith String Ascii List Lia Bool.
From stdpp Require Import base tactics option list gmap strings.

Local Open Scope string_scope.
Local Open Scope Z_scope.
Local Open Scope list_scope.

(** ** Package [strings] *)

Module strings.

(** [s[i:]] for [0 <= i <= len(s)]. *)
Definition slice_from (s : string) (i : nat) : string :=
  substring i (String.length s - i) s.

(** [s[:i]] for [0 <= i <= len(s)]. *)
Definition slice_to (s : string) (i : nat) : string :=
  substring 0 i s.

(** [func HasPrefix(s, prefix string) bool]:
    [len(s) >= len(prefix) && s[:len(prefix)] == prefix]. *)
Definition HasPrefix (s prefix : string) : bool :=
  (String.length prefix <=? String.length s)%nat
  && String.eqb (slice_to s (String.length prefix)) prefix.

(** [func Index(s, substr string) int]: the index of the first instance of
    [substr] in [s], or [-1]. *)
Fixpoint index_at (s substr : string) (i : Z) : Z :=
  if HasPrefix s substr then i
  else match s with
       | EmptyString => -1
       | String _ rest => index_at rest substr (i + 1)
       end.

Definition Index (s substr : string) : Z := index_at s substr 0.

(** [func Count(s, substr string) int] for a non-empty [substr]: the number
    of non-overlapping instances. *)
Fixpoint count_fuel (fuel : nat) (s substr : string) : Z :=
  match fuel with
  | O => 0
  | S fuel' =>
      let i := Index s substr in
      if i <? 0 then 0
      else 1 + count_fuel fuel'
                 (slice_from s (Z.to_nat i + String.length substr)) substr
  end.

Definition Count (s substr : string) : Z :=
  count_fuel (S (String.length s)) s substr.

(** The loop of [genSplit]:
<<
    for i < n {
        m := Index(s, sep)
        if m < 0 { break }
        a[i] = s[:m+sepSave]
        s = s[m+len(sep):]
        i++
    }
    a[i] = s
    return a[:i+1]
>>
    [n] here is the number of iterations still allowed. *)
Fixpoint split_loop (n : nat) (s sep : string) (sepSave : nat) : list string :=
  match n with
  | O => [s]
  | S n' =>
      let m := Index s sep in
      if m <? 0 then [s]
      else slice_to s (Z.to_nat m + sepSave)
           :: split_loop n' (slice_from s (Z.to_nat m + String.length sep))
                sep sepSave
  end.

(** [func genSplit(s, sep string, sepSave, n int) []string].  With an empty
    separator Go cuts [s] into UTF-8 sequences ([explode]); no call of this
    program passes one, the branch is left out and yields [nil] here. *)
Definition genSplit (s sep : string) (sepSave : nat) (n : Z) : list string :=
  if n =? 0 then []
  else if String.eqb sep "" then []
  else
    let n := if n <? 0 then Count s sep + 1 else n in
    let n := if Z.of_nat (String.length s) + 1 <? n
             then Z.of_nat (String.length s) + 1 else n in
    split_loop (Z.to_nat (n - 1)) s sep sepSave.

(** [func SplitN(s, sep string, n int) []string]. *)
Definition SplitN (s sep : string) (n : Z) : list string :=
  genSplit s sep 0 n.

End strings.

(** ** Package [encoding/base64]: [StdEncoding], padded and not strict *)

Module base64.

Definition encodeStd : string :=
  "ABCDEFGHIJKLMNOPQRSTUVWXYZabcdefghijklmnopqrstuvwxyz0123456789+/".

(** [StdPadding]. *)
Definition padChar : ascii := "="%char.

Fixpoint alphabet_index (alphabet : string) (c : ascii) (i : Z) : Z :=
  match alphabet with
  | EmptyString => 255
  | String a rest =>
      if Ascii.eqb a c then i else alphabet_index rest c (i + 1)
  end.

(** [enc.decodeMap[in]]: the six-bit value of an alphabet byte, [0xff] for
    every other byte. *)
Definition decodeMap (c : ascii) : Z := alphabet_index encodeStd c 0.

Definition byte_of (v : Z) : ascii := ascii_of_N (Z.to_N (Z.land v 255)).

Definition is_newline (c : ascii) : bool :=
  Ascii.eqb c "010"%char || Ascii.eqb c "013"%char.

(** [for si < len(src) && (src[si] == '\n' || src[si] == '\r') { si++ }]. *)
Fixpoint skip_newlines (src : string) : string :=
  match src with
  | String c rest => if is_newline c then skip_newlines rest else src
  | EmptyString => src
  end.

(** The tail of [decodeQuantum]: the sextets of [dbuf] are packed into
    [val], and [dlen - 1] bytes of it are written out.
<<
    val := uint(dbuf[0])<<18 | uint(dbuf[1])<<12 | uint(dbuf[2])<<6 | uint(dbuf[3])
    dbuf[2], dbuf[1], dbuf[0] = byte(val>>0), byte(val>>8), byte(val>>16)
>> *)
Definition quantum_bytes (dbuf : list Z) (dlen : nat) : string :=
  let d i := nth i dbuf 0 in
  let val := Z.lor (Z.lor (Z.lor (Z.shiftl (d 0%nat) 18) (Z.shiftl (d 1%nat) 12))
                      (Z.shiftl (d 2%nat) 6)) (d 3%nat) in
  string_of_list_ascii
    (firstn (dlen - 1)
       [byte_of (Z.shiftr val 16); byte_of (Z.shiftr val 8); byte_of val]).

(** [func (enc *Encoding) Decode(dst, src []byte) (n int, err error)], the
    loop [for si < len(src) { si, ninc, err = enc.decodeQuantum(...) }]
    with [decodeQuantum] unfolded into it: [dbuf] holds the sextets of the
    quantum being read (its length is the [j] of [decodeQuantum]).  The
    result is [None] where Go returns a [CorruptInputError].  The 8- and
    4-byte fast paths of [Decode] compute the same quanta and are not
    separated out. *)
Fixpoint decode (src : string) (dbuf : list Z) : option string :=
  match src with
  | EmptyString =>
      (* len(src) == si: fine at j == 0, corrupt otherwise (padded encoding) *)
      match dbuf with
      | [] => Some ""
      | _ => None
      end
  | String c rest =>
      let out := decodeMap c in
      if negb (out =? 255) then
        let dbuf' := (dbuf ++ [out])%list in
        if (length dbuf' =? 4)%nat
        then String.append (quantum_bytes dbuf' 4) <$> decode rest []
        else decode rest dbuf'
      else if is_newline c then decode rest dbuf
      else if negb (Ascii.eqb c padChar) then None
      else
        match length dbuf with
        | 0%nat | 1%nat => None                      (* incorrect padding *)
        | 2%nat =>
            (* "==" is expected, the first "=" is already consumed *)
            match skip_newlines rest with
            | EmptyString => None                     (* not enough padding *)
            | String c2 rest2 =>
                if negb (Ascii.eqb c2 padChar) then None
                else match skip_newlines rest2 with
                     | EmptyString => Some (quantum_bytes dbuf 2)
                     | String _ _ => None             (* trailing garbage *)
                     end
            end
        | _ =>
            match skip_newlines rest with
            | EmptyString => Some (quantum_bytes dbuf 3)
            | String _ _ => None                      (* trailing garbage *)
            end
        end
  end.

(** [func (enc *Encoding) DecodeString(s string) ([]byte, error)]. *)
Definition DecodeString (s : string) : option string := decode s [].

(** [func (enc *Encoding) EncodeToString(src []byte) string], used by the
    tests and by [CreateBasicAuth] of [helpers_test.go]. *)
Definition sextet_char (v : Z) : ascii :=
  match String.get (Z.to_nat (Z.land v 63)) encodeStd with
  | Some c => c
  | None => padChar
  end.

Definition b (c : ascii) : Z := Z.of_N (N_of_ascii c).

Fixpoint encode (src : list ascii) : list ascii :=
  match src with
  | [] => []
  | [c0] =>
      let val := Z.shiftl (b c0) 16 in
      [sextet_char (Z.shiftr val 18); sextet_char (Z.shiftr val 12);
       padChar; padChar]
  | [c0; c1] =>
      let val := Z.lor (Z.shiftl (b c0) 16) (Z.shiftl (b c1) 8) in
      [sextet_char (Z.shiftr val 18); sextet_char (Z.shiftr val 12);
       sextet_char (Z.shiftr val 6); padChar]
  | c0 :: c1 :: c2 :: rest =>
      let val := Z.lor (Z.lor (Z.shiftl (b c0) 16) (Z.shiftl (b c1) 8)) (b c2) in
      sextet_char (Z.shiftr val 18) :: sextet_char (Z.shiftr val 12)
      :: sextet_char (Z.shiftr val 6) :: sextet_char val :: encode rest
  end.

Definition EncodeToString (src : string) : string :=
  string_of_list_ascii (encode (list_ascii_of_string src)).

End base64.

(** ** Package [net/textproto]: header keys *)

Module textproto.

Definition byte_in (lo hi c : ascii) : bool :=
  (N_of_ascii lo <=? N_of_ascii c)%N && (N_of_ascii c <=? N_of_ascii hi)%N.

Definition is_lower (c : ascii) : bool := byte_in "a" "z" c.
Definition is_upper (c : ascii) : bool := byte_in "A" "Z" c.
Definition is_digit (c : ascii) : bool := byte_in "0" "9" c.

(** [validHeaderFieldByte]: the [tchar] bytes of RFC 7230, which are also
    the token bytes [validMethod] of [net/http] accepts. *)
Definition validHeaderFieldByte (c : ascii) : bool :=
  is_lower c || is_upper c || is_digit c
  || existsb (Ascii.eqb c) (list_ascii_of_string "!#$%&'*+-.^_`|~").

(** [const toLower = 'a' - 'A'] *)
Definition toLower : N := 32.

(** The casing loop of [canonicalMIMEHeaderKey]: upper case for the first
    letter and for a letter after a dash, lower case elsewhere. *)
Fixpoint canonical_case (upper : bool) (a : string) : string :=
  match a with
  | EmptyString => EmptyString
  | String c rest =>
      let c' :=
        if upper && is_lower c then ascii_of_N (N_of_ascii c - toLower)
        else if negb upper && is_upper c then ascii_of_N (N_of_ascii c + toLower)
        else c in
      String c' (canonical_case (Ascii.eqb c' "-") rest)
  end.

(** [func CanonicalMIMEHeaderKey(s string) string]: a key with a byte that
    is no header field byte is returned as it is. *)
Definition CanonicalMIMEHeaderKey (s : string) : string :=
  if forallb validHeaderFieldByte (list_ascii_of_string s)
  then canonical_case true s
  else s.

End textproto.

(** ** Package [net/http] *)

Module http.

(** [type Header map[string][]string] *)
Abbreviation MIMEHeader := (gmap string (list string)).

Definition values (h : MIMEHeader) (key : string) : list string :=
  default [] (h !! key).

(** [func (h Header) Get(key string) string]: the first value of the
    canonical key, the empty string when there is none. *)
Definition Get (h : MIMEHeader) (key : string) : string :=
  match values h (textproto.CanonicalMIMEHeaderKey key) with
  | [] => EmptyString
  | v :: _ => v
  end.

(** [func (h Header) Set(key, value string)] *)
Definition Set_ (h : MIMEHeader) (key value : string) : MIMEHeader :=
  <[textproto.CanonicalMIMEHeaderKey key := [value]]> h.

(** [func (h Header) Add(key, value string)]:
    [h[key] = append(h[key], value)] at the canonical key. *)
Definition Add (h : MIMEHeader) (key value : string) : MIMEHeader :=
  let key := textproto.CanonicalMIMEHeaderKey key in
  <[key := (values h key ++ [value])%list]> h.

(** [func (h Header) Del(key string)] *)
Definition Del (h : MIMEHeader) (key : string) : MIMEHeader :=
  delete (textproto.CanonicalMIMEHeaderKey key) h.

(** An [io.Reader] as the sequence of its reads: the chunks it yields, then
    [io.EOF] ([None]) or another error. *)
Record Stream := { chunks : list string; failure : option string }.

(** [type Request struct]; [URL] holds the text [r.URL.String()] yields. *)
Record Request := {
  Method : string;
  URL : string;
  Host : string;
  RemoteAddr : string;
  Header : MIMEHeader;
  Body : Stream
}.

(** [type Response struct] with its fields [StatusCode], [Header], [Body]. *)
Record Response := {
  StatusCode : Z;
  RespHeader : MIMEHeader;
  RespBody : Stream
}.

Definition StatusOK : Z := 200.
Definition StatusProxyAuthRequired : Z := 407.
Definition StatusInternalServerError : Z := 500.
Definition StatusBadGateway : Z := 502.

(** [func validMethod(method string) bool] *)
Definition validMethod (method : string) : bool :=
  (0 <? String.length method)%nat
  && forallb textproto.validHeaderFieldByte (list_ascii_of_string method).

(** A [http.ResponseWriter], with the behaviour of the
    [httptest.ResponseRecorder] the tests of the repository run the handlers
    against, which is what the interface documents: the first [WriteHeader]
    fixes the status code ([Code]) and the header map sent with it
    ([sentHeader]), later calls change nothing, and a [Write] succeeds.
    [handlerHeader] is the map [w.Header()] returns, [written] the body so
    far.  [hijacker] tells whether the writer is a [http.Hijacker] (a
    recorder is none, the writer of the HTTP/1 server is one) and, if so,
    whether [Hijack] succeeds. *)
Record ResponseWriter := {
  handlerHeader : MIMEHeader;
  wroteHeader : bool;
  Code : Z;
  sentHeader : MIMEHeader;
  written : string;
  hijacker : option bool
}.

(** The writer a handler is entered with: an empty header map, nothing
    written yet. *)
Definition newWriter (hijacker : option bool) : ResponseWriter :=
  {| handlerHeader := ∅; wroteHeader := false; Code := 200; sentHeader := ∅;
     written := EmptyString; hijacker := hijacker |}.

(** [httptest.NewRecorder()], which is no [Hijacker]. *)
Definition NewRecorder : ResponseWriter := newWriter None.

(** [func checkWriteHeaderCode(code int)] panics outside this range. *)
Definition validWriteHeaderCode (code : Z) : bool :=
  (100 <=? code) && (code <=? 999).

End http.

(** ** Package [time] and [net] *)

(** [time.Second], a [time.Duration]: nanoseconds. *)
Definition Second : Z := 1000000000.

(** The two connections of a tunnel: the one taken over from the client and
    the one dialled to the target. *)
Inductive Conn := clientConn | destConn.

Global Instance Conn_eq_dec : EqDecision Conn.
Proof. solve_decision. Defined.

(** ** The handlers' world

    A handler runs against the response writer [w] and the request [r] it
    was given by reference, and leaves a trace of what it did to the outside.
    [defers] is the stack of calls deferred by the running function. *)

(** What [Close] is deferred on: the body of the upstream response, or a
    connection. *)
Inductive Closer := CloseRespBody | CloseConn (c : Conn).

Global Instance Closer_eq_dec : EqDecision Closer.
Proof. solve_decision. Defined.

(** What a handler does to the outside, in the order in which it does it:
    a line logged; the status code and header map that go out to the client
    (at the first [WriteHeader]); body bytes that go out to the client; the
    outbound request passed to [client.Do], with the timeout of the client;
    a dial with its timeout; the type assertion [w.(http.Hijacker)] and its
    outcome; the call of [Hijack] and whether it succeeded; a deferred
    [Close]; the start of the goroutine. *)
Inductive Event :=
| EvLog (line : string)
| EvStatus (code : Z) (h : http.MIMEHeader)
| EvBody (data : string)
| EvDo (timeout : Z) (req : http.Request)
| EvDial (network addr : string) (timeout : Z)
| EvAssertHijacker (ok : bool)
| EvHijack (ok : bool)
| EvClose (c : Closer)
| EvGo.

Record World := {
  w : http.ResponseWriter;
  r : http.Request;
  defers : list Closer;
  trace : list Event
}.

(** What the handlers cannot decide themselves: whether [url.Parse] accepts
    a URL (and the authority it finds), what the outbound request and the
    dial come back with, and the order in which [range] visits a map. *)
Record Env := {
  url_Parse : string → option string;
  client_Do : Z → http.Request → option http.Response;
  net_DialTimeout : string → string → Z → bool;
  range_order : http.MIMEHeader → list (string * list string)
}.

(** [range] visits every entry of a map once, in an order of its own. *)
Definition range_ok (env : Env) : Prop :=
  ∀ h, range_order env h ≡ₚ map_to_list h.

Inductive Result (A : Type) :=
| Ret (a : A) (s : World)
| Panicked (v : string) (s : World).
Arguments Ret {A} a s.
Arguments Panicked {A} v s.

Definition M (A : Type) : Type := World → Result A.

Global Instance M_ret : MRet M := λ A a s, Ret a s.
Global Instance M_bind : MBind M := λ A B f m s,
  match m s with
  | Ret a s' => f a s'
  | Panicked v s' => Panicked v s'
  end.

Definition final {A} (res : Result A) : World :=
  match res with Ret _ s => s | Panicked _ s => s end.

Definition returned {A} (res : Result A) : option A :=
  match res with Ret a _ => Some a | Panicked _ _ => None end.

Definition get_w : M http.ResponseWriter := λ s, Ret (w s) s.
Definition get_r : M http.Request := λ s, Ret (r s) s.

Definition set_w (w' : http.ResponseWriter) : M unit := λ s,
  Ret tt {| w := w'; r := r s; defers := defers s; trace := trace s |}.

Definition set_r (r' : http.Request) : M unit := λ s,
  Ret tt {| w := w s; r := r'; defers := defers s; trace := trace s |}.

Definition emit (e : Event) : M unit := λ s,
  Ret tt {| w := w s; r := r s; defers := defers s;
            trace := (trace s ++ [e])%list |}.

Definition panic {A} (v : string) : M A := λ s, Panicked v s.

(** [defer c.Close()] *)
Definition defer (c : Closer) : M unit := λ s,
  Ret tt {| w := w s; r := r s; defers := c :: defers s; trace := trace s |}.

(** The deferred calls run when the function returns or panics, last
    deferred first. *)
Definition run_defers (s : World) : World :=
  {| w := w s; r := r s; defers := [];
     trace := (trace s ++ map EvClose (defers s))%list |}.

Definition call {A} (body : M A) : M A := λ s,
  match body s with
  | Ret a s' => Ret a (run_defers s')
  | Panicked v s' => Panicked v (run_defers s')
  end.

(** [log.Printf] *)
Definition log_Printf (line : string) : M unit := emit (EvLog line).

(** *** The methods of the response writer *)

(** [w.Header().Set(key, value)] *)
Definition w_Header_Set (key value : string) : M unit :=
  w0 ← get_w;
  set_w {| http.handlerHeader := http.Set_ (http.handlerHeader w0) key value;
           http.wroteHeader := http.wroteHeader w0; http.Code := http.Code w0;
           http.sentHeader := http.sentHeader w0; http.written := http.written w0;
           http.hijacker := http.hijacker w0 |}.

(** [w.Header().Add(key, value)] *)
Definition w_Header_Add (key value : string) : M unit :=
  w0 ← get_w;
  set_w {| http.handlerHeader := http.Add (http.handlerHeader w0) key value;
           http.wroteHeader := http.wroteHeader w0; http.Code := http.Code w0;
           http.sentHeader := http.sentHeader w0; http.written := http.written w0;
           http.hijacker := http.hijacker w0 |}.

(** [w.WriteHeader(code)]: nothing happens once a header was written; a code
    outside 100..999 panics ([checkWriteHeaderCode]); otherwise the code and
    a copy of the header map go out.  The informational codes (100 and
    102..199), which the server's writer sends ahead of the final header,
    are not told apart: [client.Do] consumes such responses and never
    returns one. *)
Definition WriteHeader (code : Z) : M unit :=
  w0 ← get_w;
  if http.wroteHeader w0 then mret tt
  else if negb (http.validWriteHeaderCode code) then panic "invalid WriteHeader code"
  else
    set_w {| http.handlerHeader := http.handlerHeader w0;
             http.wroteHeader := true; http.Code := code;
             http.sentHeader := http.handlerHeader w0;
             http.written := http.written w0;
             http.hijacker := http.hijacker w0 |};;
    emit (EvStatus code (http.handlerHeader w0)).

(** [w.Write(data)]: an implicit [WriteHeader(http.StatusOK)] if none came
    before, then the bytes.  Both handlers write their header before any
    body, so that the content type a writer may guess on the implicit call
    plays no part. *)
Definition Write (data : string) : M unit :=
  WriteHeader http.StatusOK;;
  w0 ← get_w;
  set_w {| http.handlerHeader := http.handlerHeader w0;
           http.wroteHeader := http.wroteHeader w0; http.Code := http.Code w0;
           http.sentHeader := http.sentHeader w0;
           http.written := http.written w0 +:+ data;
           http.hijacker := http.hijacker w0 |};;
  emit (EvBody data).

Definition newline : string := String "010"%char EmptyString.

(** [func Error(w ResponseWriter, error string, code int)] of [net/http]
    (Go 1.21):
<<
      w.Header().Set("Content-Type", "text/plain; charset=utf-8")
      w.Header().Set("X-Content-Type-Options", "nosniff")
      w.WriteHeader(code)
      fmt.Fprintln(w, error)
>> *)
Definition http_Error (error : string) (code : Z) : M unit :=
  w_Header_Set "Content-Type" "text/plain; charset=utf-8";;
  w_Header_Set "X-Content-Type-Options" "nosniff";;
  WriteHeader code;;
  Write (error +:+ newline).

(** [r.Header.Del(key)] *)
Definition r_Header_Del (key : string) : M unit :=
  r0 ← get_r;
  set_r {| http.Method := http.Method r0; http.URL := http.URL r0;
           http.Host := http.Host r0; http.RemoteAddr := http.RemoteAddr r0;
           http.Header := http.Del (http.Header r0) key;
           http.Body := http.Body r0 |}.

(** [http.NewRequest(method, url, body)], which returns a request or an error:
      an empty method means GET, the method must be a token and the URL must
      parse; the new request has an empty header map. *)
Definition NewRequest (env : Env) (method url : string) (body : http.Stream)
  : option http.Request :=
  let method := if String.eqb method "" then "GET" else method in
  if negb (http.validMethod method) then None
  else match url_Parse env url with
       | None => None
       | Some host =>
           Some {| http.Method := method; http.URL := url; http.Host := host;
                   http.RemoteAddr := EmptyString; http.Header := ∅;
                   http.Body := body |}
       end.

(** [proxyReq.Header.Add(name, value)] *)
Definition req_Header_Add (q : http.Request) (name value : string) : http.Request :=
  {| http.Method := http.Method q; http.URL := http.URL q;
     http.Host := http.Host q; http.RemoteAddr := http.RemoteAddr q;
     http.Header := http.Add (http.Header q) name value;
     http.Body := http.Body q |}.

(** [type Client struct] with its field [Timeout]. *)
Record Client := { Timeout : Z }.

(** [client.Do(req)].  A [Stream] is the value of its reads: what the
    transport reads of the body of [req], which is the body of the inbound
    request itself, is not recorded. *)
Definition Do (env : Env) (client : Client) (req : http.Request)
  : M (option http.Response) :=
  emit (EvDo (Timeout client) req);;
  mret (client_Do env (Timeout client) req).

(** [net.DialTimeout(network, address, timeout)]: whether a connection came
    back; it is [destConn]. *)
Definition DialTimeout (env : Env) (network address : string) (timeout : Z)
  : M bool :=
  emit (EvDial network address timeout);;
  mret (net_DialTimeout env network address timeout).

(** [io.Copy(w, src)]: the bytes of every read of [src] are written to [w]
    ([if nr > 0]); at the end of [src] the copy returns the error the last
    read came with, and [io.EOF] is none.  A [Write] of the writer of this
    model does not fail, so that the error of a write, which ends [io.Copy]
    as well, does not come up. *)
Fixpoint copy_chunks (cs : list string) (ending : option string)
  : M (option string) :=
  match cs with
  | [] => mret ending
  | c :: cs' =>
      (if (0 <? String.length c)%nat then Write c else mret tt);;
      copy_chunks cs' ending
  end.

Definition io_Copy_w (src : http.Stream) : M (option string) :=
  copy_chunks (http.chunks src) (http.failure src).

Fixpoint for_range {A} (l : list A) (body : A → M unit) : M unit :=
  match l with
  | [] => mret tt
  | x :: l' => body x;; for_range l' body
  end.

(** ** [main.go] *)

(** [type ProxyServer struct] *)
Record ProxyServer := {
  username : string;
  password : string;
  port : string
}.

(** [func NewProxyServer(username, password, port string) *ProxyServer] *)
Definition NewProxyServer (username password port : string) : ProxyServer :=
  {| username := username; password := password; port := port |}.

(** [func (ps *ProxyServer) authenticateRequest(r *http.Request) bool] *)
Definition authenticateRequest (ps : ProxyServer) (r : http.Request) : bool :=
  let auth := http.Get (http.Header r) "Proxy-Authorization" in
  if String.eqb auth "" then false
  else if negb (strings.HasPrefix auth "Basic ") then false
  else
    match base64.DecodeString (strings.slice_from auth 6) with
    | None => false
    | Some payload =>
        let credentials := strings.SplitN payload ":" 2 in
        if negb (length credentials =? 2)%nat then false
        else
          let username' := nth 0 credentials EmptyString in
          let password' := nth 1 credentials EmptyString in
          String.eqb username' (username ps) && String.eqb password' (password ps)
    end.

Definition quote : string := String "034"%char EmptyString.

(** The challenge [Basic realm=...] with the realm, Proxy Server, in double
    quotes. *)
Definition challenge : string :=
  "Basic realm=" +:+ quote +:+ "Proxy Server" +:+ quote.

(** The lines both handlers start with:
<<
      w.Header().Set("Proxy-Authenticate", ...)
      http.Error(w, "Proxy Authentication Required", http.StatusProxyAuthRequired)
      return
>> *)
Definition reject : M unit :=
  w_Header_Set "Proxy-Authenticate" challenge;;
  http_Error "Proxy Authentication Required" http.StatusProxyAuthRequired.

(** The loop [for name, values := range r.Header { for _, value := range
    values { proxyReq.Header.Add(name, value) } }] over the entries in the
    order [range] visits them. *)
Definition copy_request_headers (entries : list (string * list string))
    (proxyReq : http.Request) : http.Request :=
  foldl (λ q entry, foldl (λ q value, req_Header_Add q entry.1 value) q entry.2)
        proxyReq entries.

(** The loop [for name, values := range resp.Header { for _, value := range
    values { w.Header().Add(name, value) } }]. *)
Definition copy_response_headers (entries : list (string * list string)) : M unit :=
  for_range entries (λ entry,
    for_range entry.2 (λ value, w_Header_Add entry.1 value)).

(** [func (ps *ProxyServer) handleHTTP(w http.ResponseWriter, r *http.Request)],
    the body of the function; [handleHTTP] below adds the deferred calls. *)
Definition handleHTTP_body (ps : ProxyServer) (env : Env) : M unit :=
  r0 ← get_r;
  if negb (authenticateRequest ps r0) then reject
  else
    r_Header_Del "Proxy-Authorization";;
    r_Header_Del "Proxy-Connection";;
    let client := {| Timeout := 30 * Second |} in
    r1 ← get_r;
    match NewRequest env (http.Method r1) (http.URL r1) (http.Body r1) with
    | None =>
        http_Error "Error creating proxy request" http.StatusInternalServerError
    | Some proxyReq =>
        let proxyReq :=
          copy_request_headers (range_order env (http.Header r1)) proxyReq in
        resp ← Do env client proxyReq;
        match resp with
        | None => http_Error "Error making proxy request" http.StatusBadGateway
        | Some resp =>
            defer CloseRespBody;;
            copy_response_headers (range_order env (http.RespHeader resp));;
            WriteHeader (http.StatusCode resp);;
            err ← io_Copy_w (http.RespBody resp);
            match err with
            | Some e => log_Printf ("Error copying response body: " +:+ e)
            | None => mret tt
            end
        end
    end.

Definition handleHTTP (ps : ProxyServer) (env : Env) : M unit :=
  call (handleHTTP_body ps env).

(** *** The tunnel session

    Once the client connection is taken over, [handleHTTPS] is two execution
    units over the two connections: the goroutine, which copies from the
    client to the target, and the handler itself, which copies from the
    target to the client.  Each is the list of what it still has to do: its
    [io.Copy], then its deferred [Close] calls. *)

Inductive Instr :=
| ICopy (dst src : Conn)     (* in io.Copy(dst, src), about to read from src *)
| IWrite (dst src : Conn)    (* in io.Copy(dst, src), about to write to dst *)
| IClose (c : Closer).

Record Tunnel := {
  clientClosed : bool;
  destClosed : bool;
  handler : list Instr;
  goroutine : list Instr
}.

(** The session as [handleHTTPS] starts it, with the calls it has deferred:
<<
      go func() {
          defer destConn.Close()
          defer clientConn.Close()
          io.Copy(destConn, clientConn)
      }()
      io.Copy(clientConn, destConn)
>> *)
Definition tunnel_start (deferred : list Closer) : Tunnel :=
  {| clientClosed := false; destClosed := false;
     handler := ICopy clientConn destConn :: map IClose deferred;
     goroutine := [ICopy destConn clientConn;
                   IClose (CloseConn clientConn); IClose (CloseConn destConn)] |}.

(** [func (ps *ProxyServer) handleHTTPS(w http.ResponseWriter, r *http.Request)]
    up to the two copies; the result tells whether the session started. *)
Definition handleHTTPS_body (ps : ProxyServer) (env : Env) : M bool :=
  r0 ← get_r;
  if negb (authenticateRequest ps r0) then reject;; mret false
  else
    ok ← DialTimeout env "tcp" (http.Host r0) (30 * Second);
    if negb ok then
      http_Error "Error connecting to destination" http.StatusBadGateway;;
      mret false
    else
      defer (CloseConn destConn);;
      WriteHeader http.StatusOK;;
      w0 ← get_w;
      emit (EvAssertHijacker (bool_decide (http.hijacker w0 ≠ None)));;
      match http.hijacker w0 with
      | None =>
          http_Error "Hijacking not supported" http.StatusInternalServerError;;
          mret false
      | Some hijack_ok =>
          emit (EvHijack hijack_ok);;
          if negb hijack_ok then
            http_Error "Error hijacking connection" http.StatusInternalServerError;;
            mret false
          else
            defer (CloseConn clientConn);;
            emit EvGo;;
            mret true
      end.

(** [handleHTTPS]: when no session starts the function returns and its
    deferred calls run; when one starts the function goes on as the handler
    unit of the session, which runs them at its end. *)
Definition handleHTTPS (ps : ProxyServer) (env : Env) : M (option Tunnel) := λ s,
  match handleHTTPS_body ps env s with
  | Ret true s' => Ret (Some (tunnel_start (defers s'))) s'
  | Ret false s' => Ret None (run_defers s')
  | Panicked v s' => Panicked v (run_defers s')
  end.

(** [func (ps *ProxyServer) ServeHTTP(w http.ResponseWriter, r *http.Request)] *)
Definition ServeHTTP (ps : ProxyServer) (env : Env) : M (option Tunnel) :=
  r0 ← get_r;
  log_Printf (http.RemoteAddr r0 +:+ " " +:+ http.Method r0 +:+ " " +:+ http.URL r0);;
  if String.eqb (http.Method r0) "CONNECT" then handleHTTPS ps env
  else handleHTTP ps env;; mret None.

(** A handler is entered with the writer and the request of one inbound
    request, nothing deferred and nothing done yet. *)
Definition enter (w0 : http.ResponseWriter) (r0 : http.Request) : World :=
  {| w := w0; r := r0; defers := []; trace := [] |}.

(** The world of an inbound request [r0] on a connection whose writer has
    the takeover capability [hijacker]. *)
Definition inbound (hijacker : option bool) (r0 : http.Request) : World :=
  enter (http.newWriter hijacker) r0.

(** What the client sees of a response: the status code, the header map sent
    with it, and the body. *)
Definition response (s : World) : Z * http.MIMEHeader * string :=
  (http.Code (w s), http.sentHeader (w s), http.written (w s)).

(** The two execution units of a session. *)
Inductive ExecUnit := Handler | Goroutine.

(** What a read or a write comes back with: bytes moved, or the end of the
    stream or an I/O error. *)
Inductive IO := Moved | Ended.

Definition is_closed (t : Tunnel) (c : Conn) : bool :=
  match c with
  | clientConn => clientClosed t
  | destConn => destClosed t
  end.

Definition prog (u : ExecUnit) (t : Tunnel) : list Instr :=
  match u with
  | Handler => handler t
  | Goroutine => goroutine t
  end.

(** One step of a unit.  A read or a write on a closed connection does not
    block and does not move bytes: it returns an error.  On an open
    connection either outcome is possible; which one comes, and when, is up
    to the peers.  [io.Copy] returns at the first read or write that ends;
    a [Close] always goes through. *)
Definition exec (t : Tunnel) (io : IO) (p : list Instr)
  : option (list Instr * option Closer) :=
  match p with
  | [] => None
  | ICopy dst src :: k =>
      match io with
      | Moved => if is_closed t src then None else Some (IWrite dst src :: k, None)
      | Ended => Some (k, None)
      end
  | IWrite dst src :: k =>
      match io with
      | Moved => if is_closed t dst then None else Some (ICopy dst src :: k, None)
      | Ended => Some (k, None)
      end
  | IClose c :: k => Some (k, Some c)
  end.

Definition closes (c : option Closer) (which : Conn) : bool :=
  bool_decide (c = Some (CloseConn which)).

Definition step (u : ExecUnit) (io : IO) (t : Tunnel) : option Tunnel :=
  match exec t io (prog u t) with
  | None => None
  | Some (p', c) =>
      Some {| clientClosed := clientClosed t || closes c clientConn;
              destClosed := destClosed t || closes c destConn;
              handler := match u with Handler => p' | Goroutine => handler t end;
              goroutine := match u with Handler => goroutine t | Goroutine => p' end |}
  end.

(** A schedule: which unit moves, and what its read or write comes back
    with.  [run] is [None] when the schedule asks for a step that cannot
    happen. *)
Fixpoint run (sched : list (ExecUnit * IO)) (t : Tunnel) : option Tunnel :=
  match sched with
  | [] => Some t
  | (u, io) :: sched' =>
      match step u io t with
      | None => None
      | Some t' => run sched' t'
      end
  end.

Definition copying (p : list Instr) : bool :=
  match p with
  | ICopy _ _ :: _ | IWrite _ _ :: _ => true
  | _ => false
  end.

Definition both_closed (t : Tunnel) : bool := clientClosed t && destClosed t.

(** The steps the two units still have to take. *)
Definition remaining (t : Tunnel) : nat :=
  (length (handler t) + length (goroutine t))%nat.

(** Where a unit of a session is: in its copy, about to read or about to
    write; out of its copy with both [Close] calls ahead; between the two
    calls; at its end. *)
Inductive Stage := Reading | Writing | Leaving | Closing | Finished.

Definition copy_dst (u : ExecUnit) : Conn :=
  match u with Handler => clientConn | Goroutine => destConn end.

Definition copy_src (u : ExecUnit) : Conn :=
  match u with Handler => destConn | Goroutine => clientConn end.

Definition closes_both : list Instr :=
  [IClose (CloseConn clientConn); IClose (CloseConn destConn)].

Definition stage_prog (u : ExecUnit) (st : Stage) : list Instr :=
  match st with
  | Reading => ICopy (copy_dst u) (copy_src u) :: closes_both
  | Writing => IWrite (copy_dst u) (copy_src u) :: closes_both
  | Leaving => closes_both
  | Closing => [IClose (CloseConn destConn)]
  | Finished => []
  end.

Definition past_first_close (st : Stage) : bool :=
  match st with Closing | Finished => true | _ => false end.

Definition at_end (st : Stage) : bool :=
  match st with Finished => true | _ => false end.

(** The session in which the handler is at [sh] and the goroutine at [sg]:
    an endpoint is closed when a unit is past its call of [Close] on it. *)
Definition session (sh sg : Stage) : Tunnel :=
  {| clientClosed := past_first_close sh || past_first_close sg;
     destClosed := at_end sh || at_end sg;
     handler := stage_prog Handler sh;
     goroutine := stage_prog Goroutine sg |}.

(** The sessions that can be reached from the start of a tunnel. *)
Definition reachable (t : Tunnel) : Prop :=
  ∃ sched, run sched (tunnel_start [CloseConn clientConn; CloseConn destConn]) = Some t.

Global Instance ExecUnit_eq_dec : EqDecision ExecUnit.
Proof. solve_decision. Defined.

(** The steps of the unit [u] in a schedule. *)
Definition steps_of (u : ExecUnit) (sched : list (ExecUnit * IO)) : nat :=
  length (filter (λ x, x.1 = u) sched).

Definition is_close (i : Instr) : bool :=
  match i with IClose _ => true | _ => false end.

(** The schedule in which every read and write ends and the handler runs
    to its end before the goroutine. *)
Definition wind_down (t : Tunnel) : list (ExecUnit * IO) :=
  replicate (length (handler t)) (Handler, Ended)
  ++ replicate (length (goroutine t)) (Goroutine, Ended).

(** ** The notions the properties are stated with *)

(** The value of the credential header of a request, as the authenticator
    reads it. *)
Definition credential (r0 : http.Request) : string :=
  http.Get (http.Header r0) "Proxy-Authorization".

Definition has_colon (s : string) : Prop := ":"%char ∈ list_ascii_of_string s.

(** [payload] is [u], the first colon of [payload], and [p]. *)
Definition splits_at_first_colon (payload u p : string) : Prop :=
  payload = u +:+ ":" +:+ p ∧ ¬ has_colon u.

(** The header maps the transport layer builds: every key is in canonical
    form and has at least one value. *)
Definition wf_header (h : http.MIMEHeader) : Prop :=
  ∀ k vs, h !! k = Some vs → textproto.CanonicalMIMEHeaderKey k = k ∧ vs ≠ [].

(** All the values of [entries] added to [h], as the two copy loops do. *)
Definition add_all (entries : list (string * list string)) (h : http.MIMEHeader)
  : http.MIMEHeader :=
  foldl (λ h entry, foldl (λ h value, http.Add h entry.1 value) h entry.2)
        h entries.

(** The bytes of the reads of a stream, in a row. *)
Definition join (cs : list string) : string := foldr String.append EmptyString cs.

(** The header map of the inbound request once the two proxy-only headers
    are deleted. *)
Definition stripped (h : http.MIMEHeader) : http.MIMEHeader :=
  http.Del (http.Del h "Proxy-Authorization") "Proxy-Connection".

Definition with_Header (q : http.Request) (h : http.MIMEHeader) : http.Request :=
  {| http.Method := http.Method q; http.URL := http.URL q;
     http.Host := http.Host q; http.RemoteAddr := http.RemoteAddr q;
     http.Header := h; http.Body := http.Body q |}.

(** The outbound request [handleHTTP] builds for the inbound request [r0]:
    [proxyReq] as it is when it is passed to [client.Do], if
    [http.NewRequest] returns one. *)
Definition proxy_request (env : Env) (r0 : http.Request) : option http.Request :=
  match NewRequest env (http.Method r0) (http.URL r0) (http.Body r0) with
  | None => None
  | Some q =>
      Some (copy_request_headers (range_order env (stripped (http.Header r0))) q)
  end.

(** The requests the transport layer hands to a handler: there is a method
    and the header map is well formed. *)
Definition wf_request (r0 : http.Request) : Prop :=
  http.Method r0 ≠ EmptyString ∧ wf_header (http.Header r0).

(** The header map [http.Error] leaves. *)
Definition error_header (h : http.MIMEHeader) : http.MIMEHeader :=
  http.Set_ (http.Set_ h "Content-Type" "text/plain; charset=utf-8")
            "X-Content-Type-Options" "nosniff".

(** The response to a request that is not authenticated. *)
Definition reject_header : http.MIMEHeader :=
  error_header (http.Set_ ∅ "Proxy-Authenticate" challenge).

Definition reject_body : string := "Proxy Authentication Required" +:+ newline.

(** A writer after its one response. *)
Definition responded (hijacker : option bool) (code : Z) (h : http.MIMEHeader)
    (body : string) : http.ResponseWriter :=
  {| http.handlerHeader := h; http.wroteHeader := true; http.Code := code;
     http.sentHeader := h; http.written := body; http.hijacker := hijacker |}.

Definition with_handlerHeader (s : World) (h : http.MIMEHeader) : World :=
  {| w := {| http.handlerHeader := h;
             http.wroteHeader := http.wroteHeader (w s); http.Code := http.Code (w s);
             http.sentHeader := http.sentHeader (w s);
             http.written := http.written (w s);
             http.hijacker := http.hijacker (w s) |};
     r := r s; defers := defers s; trace := trace s |}.

Definition nonempty (c : string) : bool := (0 <? String.length c)%nat.

(** The world after the reads [cs] were written to a writer whose header is
    out. *)
Definition after_copy (s : World) (cs : list string) : World :=
  {| w := {| http.handlerHeader := http.handlerHeader (w s);
             http.wroteHeader := http.wroteHeader (w s); http.Code := http.Code (w s);
             http.sentHeader := http.sentHeader (w s);
             http.written := http.written (w s) +:+ join cs;
             http.hijacker := http.hijacker (w s) |};
     r := r s; defers := defers s;
     trace := trace s ++ map EvBody (filter (λ c, nonempty c = true) cs) |}.

(** What a failed copy leaves in the log. *)
Definition copy_log (failure : option string) : list Event :=
  match failure with
  | Some e => [EvLog ("Error copying response body: " +:+ e)]
  | None => []
  end.

Definition is_status (e : Event) : bool :=
  match e with EvStatus _ _ => true | _ => false end.

(** The events that reach out to a target: an outbound request, a dial, a
    takeover of the client connection. *)
Definition reaches_out (e : Event) : bool :=
  match e with
  | EvDo _ _ | EvDial _ _ _ | EvHijack _ | EvGo => true
  | _ => false
  end.

(** The line [ServeHTTP] logs for a request. *)
Definition request_line (r0 : http.Request) : string :=
  http.RemoteAddr r0 +:+ " " +:+ http.Method r0 +:+ " " +:+ http.URL r0.

(** A server with the credentials of the tests, and requests for examples. *)
Definition proxy0 : ProxyServer := NewProxyServer "admin" "password123" "8080".

Definition no_body : http.Stream := {| http.chunks := []; http.failure := None |}.

Definition request0 (method url host auth : string) : http.Request :=
  {| http.Method := method; http.URL := url; http.Host := host;
     http.RemoteAddr := "127.0.0.1:40000";
     http.Header :=
       http.Set_ (http.Set_ (http.Set_ ∅ "Proxy-Authorization" auth)
                    "Proxy-Connection" "keep-alive") "Custom-Header" "CustomValue";
     http.Body := no_body |}.

(** [CreateBasicAuth] of [helpers_test.go]. *)
Definition CreateBasicAuth (username password : string) : string :=
  "Basic " +:+ base64.EncodeToString (username +:+ ":" +:+ password).

(** Requests with the credentials of [proxy0], an upstream response whose
    body breaks off, and the outside in which the target answers with it
    ([env_up]) or cannot be reached ([env_down]). *)
Definition get0 : http.Request :=
  request0 "GET" "http://example.com/" "example.com"
    (CreateBasicAuth "admin" "password123").

Definition connect0 : http.Request :=
  request0 "CONNECT" "example.com:443" "example.com:443"
    (CreateBasicAuth "admin" "password123").

Definition outbound0 : http.Request :=
  {| http.Method := "GET"; http.URL := "http://example.com/";
     http.Host := "example.com"; http.RemoteAddr := EmptyString;
     http.Header := http.Set_ ∅ "Custom-Header" "CustomValue";
     http.Body := no_body |}.

Definition response0 : http.Response :=
  {| http.StatusCode := 404;
     http.RespHeader :=
       http.Add (http.Add (http.Set_ ∅ "Content-Type" "text/plain")
                   "Set-Cookie" "a=1") "Set-Cookie" "b=2";
     http.RespBody := {| http.chunks := ["Not "; "Found"];
                         http.failure := Some "unexpected EOF" |} |}.

Definition env_up : Env :=
  {| url_Parse := λ _, Some "example.com";
     client_Do := λ _ _, Some response0;
     net_DialTimeout := λ _ _ _, true;
     range_order := map_to_list |}.

Definition env_down : Env :=
  {| url_Parse := λ _, Some "example.com";
     client_Do := λ _ _, None;
     net_DialTimeout := λ _ _ _, false;
     range_order := map_to_list |}.

(** A request without the credential header. *)
Definition bare_request : http.Request :=
  {| http.Method := "GET"; http.URL := "http://example.com";
     http.Host := "example.com"; http.RemoteAddr := "127.0.0.1:40000";
     http.Header := ∅; http.Body := no_body |}.

(** ** [helpers_test.go] *)

(** [func base64Encode(s string) string] *)
Definition base64Encode (s : string) : string := base64.EncodeToString s.

(** [type TestHelper struct]: the proxy, the backend server (here the URL
    it listens on) and the handler, which is the proxy again. *)
Record TestHelper := {
  th_ProxyServer : ProxyServer;
  th_BackendServer : string;
  th_ProxyHandler : ProxyServer
}.

(** [func NewTestHelper(username, password string) *TestHelper];
    [backendURL] is the URL of the server [httptest.NewServer] started. *)
Definition NewTestHelper (username password backendURL : string) : TestHelper :=
  let proxy := NewProxyServer username password "8080" in
  {| th_ProxyServer := proxy;
     th_BackendServer := backendURL;
     th_ProxyHandler := proxy |}.

(** [func (th *TestHelper) GetBasicAuth() string] *)
Definition GetBasicAuth (th : TestHelper) : string :=
  CreateBasicAuth (username (th_ProxyServer th)) (password (th_ProxyServer th)).

(** [func (th *TestHelper) CreateAuthenticatedRequest(method, url string)
    *http.Request]: [req] is the request [httptest.NewRequest(method, url,
    nil)] returns, on which the credential header is set. *)
Definition CreateAuthenticatedRequest (th : TestHelper) (req : http.Request)
  : http.Request :=
  with_Header req (http.Set_ (http.Header req) "Proxy-Authorization" (GetBasicAuth th)).

(** [func (th *TestHelper) CreateUnauthenticatedRequest(method, url string)
    *http.Request]: the request of [httptest.NewRequest] as it is. *)
Definition CreateUnauthenticatedRequest (th : TestHelper) (req : http.Request)
  : http.Request := req.

(** ** [main.go]: the start of the program *)

(** [strings.Repeat(s, count)] for a count that is the length of a string:
    it is not negative, and the one-byte string [main] repeats cannot
    overflow, so that the two panics of [Repeat] are out of reach. *)
Fixpoint strings_Repeat (s : string) (count : nat) : string :=
  match count with
  | O => EmptyString
  | S n => s +:+ strings_Repeat s n
  end.

(** What the program does to the outside when it starts: a text written to
    the standard output ([fmt.Printf]); a line logged ([log.Printf]); the
    call [server.ListenAndServe()] with the address and the handler of the
    server; [log.Fatal], which logs its argument and exits with status 1. *)
Inductive Output :=
| Printed (text : string)
| Logged (line : string)
| Listening (addr : string) (handler : ProxyServer)
| Fatal (line : string).

(** What the program cannot decide itself: the environment variables
    ([os.Getenv] is the empty string for a variable that is not set), and the
    error [ListenAndServe] returns for an address, if it returns. *)
Record Os := {
  Getenv : string → string;
  ListenAndServe : string → option string
}.

(** [func (ps *ProxyServer) Start() error] *)
Definition Start (os : Os) (ps : ProxyServer) : list Output * option string :=
  let addr := ":" +:+ port ps in
  ([Logged ("Starting HTTP Proxy Server on port " +:+ port ps);
    Logged ("Username: " +:+ username ps);
    Logged "Server ready to accept connections...";
    Listening addr ps],
   ListenAndServe os addr).

(** [func main()] *)
Definition main (os : Os) : list Output :=
  let username := Getenv os "PROXY_USERNAME" in
  let password := Getenv os "PROXY_PASSWORD" in
  let port := Getenv os "PROXY_PORT" in
  let username := if String.eqb username "" then "admin" else username in
  let password := if String.eqb password "" then "password123" else password in
  let port := if String.eqb port "" then "8080" else port in
  if String.eqb username "" || String.eqb password "" then
    [Fatal "Username and password are required"]
  else
    let proxy := NewProxyServer username password port in
    let banner :=
      [Printed ("=== HTTP Proxy Server ===" +:+ newline);
       Printed ("Port: " +:+ port +:+ newline);
       Printed ("Username: " +:+ username +:+ newline);
       Printed ("Password: " +:+ strings_Repeat "*" (String.length password)
                +:+ newline);
       Printed ("========================" +:+ newline +:+ newline)] in
    let (started, err) := Start os proxy in
    banner ++ started
    ++ match err with
       | Some e => [Fatal e]
       | None => []
       end.

(** The value [main] takes for a setting: the environment variable, or the
    default when it is empty or not set. *)
Definition setting (os : Os) (name default : string) : string :=
  if String.eqb (Getenv os name) "" then default else Getenv os name.

(** The text of an output, if it is one. *)
Definition shown (o : Output) : option string :=
  match o with
  | Printed text => Some text
  | Logged line => Some line
  | Fatal line => Some line
  | Listening _ _ => None
  end.

Definition is_Listening (o : Output) : bool :=
  match o with Listening _ _ => true | _ => false end.

(** The server [main] starts. *)
Definition served_by (os : Os) : ProxyServer :=
  NewProxyServer (setting os "PROXY_USERNAME" "admin")
    (setting os "PROXY_PASSWORD" "password123") (setting os "PROXY_PORT" "8080").

(** An environment with the three variables set in this order: user name,
    password, port; the server stops with [err]. *)
Definition os_with (u p port : string) (err : option string) : Os :=
  {| Getenv := λ name,
       if String.eqb name "PROXY_USERNAME" then u
       else if String.eqb name "PROXY_PASSWORD" then p
       else if String.eqb name "PROXY_PORT" then port
       else EmptyString;
     ListenAndServe := λ _, err |}.

(** ** The notions of the further properties *)

(** The three bytes the encoder packs into one value, and the value
    [decodeQuantum] packs from four sextets, of which [sextet v k] is the one
    at bit [k] of [v]. *)
Definition pack (c0 c1 c2 : ascii) : Z :=
  Z.lor (Z.lor (Z.shiftl (base64.b c0) 16) (Z.shiftl (base64.b c1) 8)) (base64.b c2).

Definition unpack (s0 s1 s2 s3 : Z) : Z :=
  Z.lor (Z.lor (Z.lor (Z.shiftl s0 18) (Z.shiftl s1 12)) (Z.shiftl s2 6)) s3.

Definition sextet (v k : Z) : Z := Z.land (Z.shiftr v k) 63.

(** The [Close] calls in a trace, in their order. *)
Definition closes_of (tr : list Event) : list Closer :=
  omap (λ e, match e with EvClose c => Some c | _ => None end) tr.

(** The upstream response [handleHTTP] gets for an inbound request, if it
    asks for one and gets one. *)
Definition upstream_response (ps : ProxyServer) (env : Env) (r0 : http.Request)
  : option http.Response :=
  if authenticateRequest ps r0
  then proxy_request env r0 ≫= client_Do env (30 * Second)
  else None.

(** Whether [handleHTTPS] gets a connection to the target of an inbound
    request. *)
Definition dialled (ps : ProxyServer) (env : Env) (r0 : http.Request) : bool :=
  authenticateRequest ps r0 && net_DialTimeout env "tcp" (http.Host r0) (30 * Second).

(** A trace in which what goes to the client is in the order of a response:
    at most one status, and no body bytes before it. *)
Fixpoint response_order (sent : bool) (tr : list Event) : bool :=
  match tr with
  | [] => true
  | EvStatus _ _ :: tr' => negb sent && response_order true tr'
  | EvBody _ :: tr' => sent && response_order true tr'
  | _ :: tr' => response_order sent tr'
  end.

Definition is_Log (e : Event) : bool :=
  match e with EvLog _ => true | _ => false end.

(** An authenticated request whose method is no token. *)
Definition bad_method0 : http.Request :=
  request0 "GE T" "http://example.com/" "example.com"
    (CreateBasicAuth "admin" "password123").

(** An upstream response with a status code of three digits that
    [WriteHeader] does not take, and the outside in which the target answers
    with it. *)
Definition response_099 : http.Response :=
  {| http.StatusCode := 99; http.RespHeader := ∅; http.RespBody := no_body |}.

Definition env_099 : Env :=
  {| url_Parse := λ _, Some "example.com";
     client_Do := λ _ _, Some response_099;
     net_DialTimeout := λ _ _ _, true;
     range_order := map_to_list |}.

(** A world in which [tr] went before. *)
Definition after_trace (tr : list Event) (s : World) : World :=
  {| w := w s; r := r s; defers := defers s; trace := tr ++ trace s |}.

Definition result_after {A} (tr : list Event) (res : Result A) : Result A :=
  match res with
  | Ret a s => Ret a (after_trace tr s)
  | Panicked v s => Panicked v (after_trace tr s)
  end.

(** A computation that does not look at the trace: it does after [tr] what
    it does without. *)
Definition framed {A} (m : M A) : Prop :=
  ∀ tr s, m (after_trace tr s) = result_after tr (m s).

(** The events of a tunnel: a dial, a takeover, the start of the goroutine. *)
Definition tunnel_event (e : Event) : bool :=
  match e with
  | EvDial _ _ _ | EvAssertHijacker _ | EvHijack _ | EvGo => true
  | _ => false
  end.

Definition is_Do (e : Event) : bool :=
  match e with EvDo _ _ => true | _ => false end.

(** A unit that is in its copy. *)
Definition in_copy (st : Stage) : bool :=
  match st with Reading | Writing => true | _ => false end.

Definition is_Ended (io : IO) : bool :=
  match io with Ended => true | Moved => false end.

(** The values the entries of a visit hold under the canonical name [name],
    in the order of the visit. *)
Definition values_under (name : string) (entries : list (string * list string))
  : list string :=
  concat (map snd (filter (λ e, textproto.CanonicalMIMEHeaderKey e.1 = name) entries)).

(** [get0] as another client sends it, with another host. *)
Definition get0_elsewhere : http.Request :=
  {| http.Method := http.Method get0; http.URL := http.URL get0;
     http.Host := "other.example"; http.RemoteAddr := "10.0.0.7:5555";
     http.Header := http.Header get0; http.Body := http.Body get0 |}.

(** * Properties *)

(** ** Strings *)

Section StringFacts.

Lemma substring_0_0 s : substring 0 0 s = EmptyString.
Proof. by destruct s. Qed.

Lemma length_append p t :
  String.length (p +:+ t) = (String.length p + String.length t)%nat.
Proof. induction p as [|a p IH]; simpl; [done | by rewrite IH]. Qed.

Lemma append_assoc (a b c : string) : (a +:+ b) +:+ c = a +:+ (b +:+ c).
Proof.
  induction a as [|x a IH]; [done|].
  change (String x ((a +:+ b) +:+ c) = String x (a +:+ (b +:+ c))).
  by rewrite IH.
Qed.

Lemma slice_to_app p t : strings.slice_to (p +:+ t) (String.length p) = p.
Proof.
  unfold strings.slice_to. induction p as [|a p IH]; simpl.
  - apply substring_0_0.
  - by rewrite IH.
Qed.

Lemma slice_from_0 s : strings.slice_from s 0 = s.
Proof.
  unfold strings.slice_from. rewrite Nat.sub_0_r.
  induction s as [|a s IH]; simpl; [done | by rewrite IH].
Qed.

Lemma slice_from_app p t : strings.slice_from (p +:+ t) (String.length p) = t.
Proof.
  induction p as [|a p IH]; simpl.
  - apply slice_from_0.
  - exact IH.
Qed.

Lemma slice_to_from s n :
  (n <= String.length s)%nat →
  s = strings.slice_to s n +:+ strings.slice_from s n.
Proof.
  revert n. induction s as [|a s IH]; intros [|n] Hn; simpl in *; try done; try lia.
  - by rewrite slice_from_0.
  - unfold strings.slice_to, strings.slice_from in *.
    change (String a s
            = String a (substring 0 n s +:+ substring n (String.length s - n) s)).
    f_equal. apply IH. lia.
Qed.

Lemma HasPrefix_app p t : strings.HasPrefix (p +:+ t) p = true.
Proof.
  unfold strings.HasPrefix. rewrite slice_to_app, String.eqb_refl, andb_true_r.
  apply Nat.leb_le. rewrite length_append. lia.
Qed.

Lemma HasPrefix_inv s p :
  strings.HasPrefix s p = true → s = p +:+ strings.slice_from s (String.length p).
Proof.
  unfold strings.HasPrefix. intros [Hlen Heq]%andb_true_iff.
  apply Nat.leb_le in Hlen. apply String.eqb_eq in Heq.
  rewrite <- Heq at 1. by apply slice_to_from.
Qed.

(** [HasPrefix] holds of the strings that start with the prefix. *)
Lemma HasPrefix_iff s p :
  strings.HasPrefix s p = true ↔ ∃ t, s = p +:+ t.
Proof.
  split.
  - intros H. eexists. by apply HasPrefix_inv.
  - intros [t ->]. apply HasPrefix_app.
Qed.

Lemma HasPrefix_byte a s c :
  strings.HasPrefix (String a s) (String c EmptyString) = Ascii.eqb a c.
Proof.
  unfold strings.HasPrefix, strings.slice_to. simpl.
  rewrite substring_0_0. simpl. by destruct (Ascii.eqb a c).
Qed.

Lemma index_at_absent c s i :
  c ∉ list_ascii_of_string s →
  strings.index_at s (String c EmptyString) i = -1.
Proof.
  revert i. induction s as [|a s IH]; intros i Hc.
  - done.
  - cbn [strings.index_at]. rewrite HasPrefix_byte.
    simpl in Hc. apply not_elem_of_cons in Hc as [Hne Hc].
    destruct (Ascii.eqb_spec a c) as [->|_]; [done|]. by apply IH.
Qed.

Lemma index_at_first c u v i :
  c ∉ list_ascii_of_string u →
  strings.index_at (u +:+ String c v) (String c EmptyString) i
  = i + Z.of_nat (String.length u).
Proof.
  revert i. induction u as [|a u IH]; intros i Hc.
  - change (EmptyString +:+ String c v) with (String c v).
    cbn [strings.index_at]. rewrite HasPrefix_byte, Ascii.eqb_refl. simpl. lia.
  - change (String a u +:+ String c v) with (String a (u +:+ String c v)).
    cbn [strings.index_at]. rewrite HasPrefix_byte.
    simpl in Hc. apply not_elem_of_cons in Hc as [Hne Hc].
    destruct (Ascii.eqb_spec a c) as [->|_]; [done|].
    rewrite IH by done. simpl String.length. lia.
Qed.

(** A string that has a given byte splits at the first one. *)
Lemma first_occurrence c s :
  c ∈ list_ascii_of_string s →
  ∃ u v, s = u +:+ String c v ∧ c ∉ list_ascii_of_string u.
Proof.
  induction s as [|a s IH]; simpl; intros Hc.
  - by apply elem_of_nil in Hc.
  - destruct (decide (a = c)) as [->|Hne].
    + exists EmptyString, s. split; [done|]. simpl. apply not_elem_of_nil.
    + apply elem_of_cons in Hc as [->|Hc]; [done|].
      destruct (IH Hc) as (u & v & -> & Hu).
      exists (String a u), v. split; [done|].
      simpl. apply not_elem_of_cons. split; [congruence|done].
Qed.

(** [SplitN(s, ":", 2)] of a string without a colon is the string alone. *)
Lemma SplitN_no_colon s :
  ¬ has_colon s → strings.SplitN s ":" 2 = [s].
Proof.
  intros Hc. unfold strings.SplitN, strings.genSplit.
  change (2 =? 0) with false. change (String.eqb ":" "") with false.
  change (2 <? 0) with false. cbv iota.
  destruct (Z.ltb_spec (Z.of_nat (String.length s) + 1) 2) as [Hlen|_].
  - destruct s; [done|]. cbn [String.length] in Hlen. lia.
  - change (Z.to_nat (2 - 1)) with 1%nat. cbn [strings.split_loop].
    unfold strings.Index. by rewrite index_at_absent.
Qed.

(** [SplitN(s, ":", 2)] cuts at the first colon, and only there. *)
Lemma SplitN_first_colon u p :
  ¬ has_colon u → strings.SplitN (u +:+ ":" +:+ p) ":" 2 = [u; p].
Proof.
  intros Hc. unfold strings.SplitN, strings.genSplit.
  change (2 =? 0) with false. change (String.eqb ":" "") with false.
  change (2 <? 0) with false. cbv iota.
  destruct (Z.ltb_spec (Z.of_nat (String.length (u +:+ ":" +:+ p)) + 1) 2)
    as [Hlen|_].
  - rewrite !length_append in Hlen. cbn [String.length] in Hlen. lia.
  - change (Z.to_nat (2 - 1)) with 1%nat. cbn [strings.split_loop].
    unfold strings.Index.
    change (u +:+ ":" +:+ p) with (u +:+ String ":" p).
    rewrite index_at_first by done.
    destruct (Z.ltb_spec (0 + Z.of_nat (String.length u)) 0) as [Hneg|_]; [lia|].
    replace (Z.to_nat (0 + Z.of_nat (String.length u))) with (String.length u) by lia.
    rewrite Nat.add_0_r, slice_to_app.
    f_equal. f_equal.
    change (u +:+ String ":" p) with (u +:+ (":" +:+ p)).
    replace (String.length u + String.length ":")%nat
      with (String.length (u +:+ ":")) by (by rewrite length_append).
    rewrite <- append_assoc. apply slice_from_app.
Qed.

End StringFacts.

(** ** The tests of [TestAuthenticateRequest], on the embedding *)

Example decode_valid_credentials :
  base64.DecodeString "YWRtaW46cGFzc3dvcmQxMjM=" = Some "admin:password123".
Proof. reflexivity. Qed.

Example encode_valid_credentials :
  CreateBasicAuth "admin" "password123" = "Basic YWRtaW46cGFzc3dvcmQxMjM=".
Proof. reflexivity. Qed.

Example decode_malformed : base64.DecodeString "invalid-base64" = None.
Proof. reflexivity. Qed.

(** Padding: one and two bytes in the last quantum, padding that is missing
    or cut short, bytes after the padding, line ends between the bytes, and
    the bits of the last sextet that a decoder that is not strict ignores. *)
Example decode_padding :
  base64.DecodeString "YQ==" = Some "a"
  ∧ base64.DecodeString "YWI=" = Some "ab"
  ∧ base64.DecodeString "YWJj" = Some "abc"
  ∧ base64.DecodeString "YQ=" = None
  ∧ base64.DecodeString "YQ" = None
  ∧ base64.DecodeString "YQ==YQ==" = None
  ∧ base64.DecodeString "=" = None
  ∧ base64.DecodeString " YQ==" = None
  ∧ base64.DecodeString ("YW" +:+ newline +:+ "I=" +:+ newline) = Some "ab"
  ∧ base64.DecodeString "YR==" = Some "a"
  ∧ base64.DecodeString "" = Some "".
Proof. repeat split; reflexivity. Qed.

Example test_valid_credentials :
  authenticateRequest proxy0
    (request0 "GET" "http://example.com" "example.com"
       (CreateBasicAuth "admin" "password123")) = true.
Proof. vm_compute. reflexivity. Qed.

Example test_invalid_username :
  authenticateRequest proxy0
    (request0 "GET" "http://example.com" "example.com"
       (CreateBasicAuth "wrong" "password123")) = false.
Proof. vm_compute. reflexivity. Qed.

Example test_invalid_password :
  authenticateRequest proxy0
    (request0 "GET" "http://example.com" "example.com"
       (CreateBasicAuth "admin" "wrong")) = false.
Proof. vm_compute. reflexivity. Qed.

Example test_invalid_auth_type :
  authenticateRequest proxy0
    (request0 "GET" "http://example.com" "example.com" "Bearer token123") = false.
Proof. vm_compute. reflexivity. Qed.

Example test_malformed_basic_auth :
  authenticateRequest proxy0
    (request0 "GET" "http://example.com" "example.com" "Basic invalid-base64") = false.
Proof. vm_compute. reflexivity. Qed.

Example test_without_colon :
  authenticateRequest proxy0
    (request0 "GET" "http://example.com" "example.com"
       ("Basic " +:+ base64.EncodeToString "adminpassword")) = false.
Proof. vm_compute. reflexivity. Qed.

(** ** The authenticator *)

Section Authenticator.
Variable ps : ProxyServer.

Lemma canonical_proxy_authorization :
  textproto.CanonicalMIMEHeaderKey "Proxy-Authorization" = "Proxy-Authorization".
Proof. reflexivity. Qed.

Lemma canonical_proxy_connection :
  textproto.CanonicalMIMEHeaderKey "Proxy-Connection" = "Proxy-Connection".
Proof. reflexivity. Qed.

Lemma credential_absent r0 :
  http.Header r0 !! "Proxy-Authorization" = None → credential r0 = EmptyString.
Proof.
  intros Hnone. unfold credential, http.Get, http.values.
  by rewrite canonical_proxy_authorization, Hnone.
Qed.

Lemma authenticate_unfold r0 :
  authenticateRequest ps r0 =
  if String.eqb (credential r0) "" then false
  else if negb (strings.HasPrefix (credential r0) "Basic ") then false
  else match base64.DecodeString (strings.slice_from (credential r0) 6) with
       | None => false
       | Some payload =>
           let credentials := strings.SplitN payload ":" 2 in
           if negb (length credentials =? 2)%nat then false
           else String.eqb (nth 0 credentials EmptyString) (username ps)
                && String.eqb (nth 1 credentials EmptyString) (password ps)
       end.
Proof. reflexivity. Qed.

(** Without the exact prefix there is no authentication. *)
Lemma authenticate_no_prefix r0 :
  strings.HasPrefix (credential r0) "Basic " = false →
  authenticateRequest ps r0 = false.
Proof.
  intros Hpre. rewrite authenticate_unfold, Hpre.
  by destruct (String.eqb (credential r0) "").
Qed.

(** With the prefix, the outcome is decided by the decoded payload. *)
Lemma authenticate_payload r0 enc payload :
  credential r0 = "Basic " +:+ enc →
  base64.DecodeString enc = Some payload →
  authenticateRequest ps r0 =
  match strings.SplitN payload ":" 2 with
  | [u; p] => String.eqb u (username ps) && String.eqb p (password ps)
  | _ => false
  end.
Proof.
  intros Hauth Hdec. rewrite authenticate_unfold, Hauth.
  change (String.eqb ("Basic " +:+ enc) "") with false. cbv iota.
  rewrite HasPrefix_app. cbv iota; simpl negb.
  change 6%nat with (String.length "Basic "). rewrite slice_from_app, Hdec.
  cbv zeta. by destruct (strings.SplitN payload ":" 2) as [|u [|p [|x l]]].
Qed.

Lemma authenticate_undecodable r0 enc :
  credential r0 = "Basic " +:+ enc →
  base64.DecodeString enc = None →
  authenticateRequest ps r0 = false.
Proof.
  intros Hauth Hdec. rewrite authenticate_unfold, Hauth.
  change (String.eqb ("Basic " +:+ enc) "") with false. cbv iota.
  rewrite HasPrefix_app. cbv iota; simpl negb.
  change 6%nat with (String.length "Basic "). by rewrite slice_from_app, Hdec.
Qed.

Lemma authenticate_true_iff r0 :
  authenticateRequest ps r0 = true ↔
  ∃ enc payload,
    credential r0 = "Basic " +:+ enc
    ∧ base64.DecodeString enc = Some payload
    ∧ splits_at_first_colon payload (username ps) (password ps).
Proof.
  split.
  - intros Hok. pose proof Hok as Hok'. rewrite authenticate_unfold in Hok'.
    destruct (String.eqb (credential r0) ""); [done|].
    destruct (strings.HasPrefix (credential r0) "Basic ") eqn:Hpre; [|done].
    apply HasPrefix_inv in Hpre. change (String.length "Basic ") with 6%nat in Hpre.
    destruct (base64.DecodeString (strings.slice_from (credential r0) 6))
      as [payload|] eqn:Hdec; [|done].
    clear Hok'. exists (strings.slice_from (credential r0) 6), payload.
    split; [done|]. split; [done|].
    rewrite (authenticate_payload r0 _ payload Hpre Hdec) in Hok.
    destruct (decide (has_colon payload)) as [Hc|Hc].
    + apply first_occurrence in Hc as (u & v & -> & Hu).
      change (u +:+ String ":" v) with (u +:+ ":" +:+ v) in Hok.
      rewrite SplitN_first_colon in Hok by done.
      apply andb_true_iff in Hok as [->%String.eqb_eq ->%String.eqb_eq].
      by split.
    + by rewrite SplitN_no_colon in Hok.
  - intros (enc & payload & Hauth & Hdec & -> & Hu).
    rewrite (authenticate_payload r0 enc _ Hauth Hdec), SplitN_first_colon by done.
    by rewrite !String.eqb_refl.
Qed.

End Authenticator.

(** C1.  [authenticateRequest] accepts a request exactly when its credential
    header is the prefix [Basic ] followed by a valid base64 text whose
    decoded payload, cut at its first colon, is the configured user name and
    password.  It rejects a request without the header, one whose header
    does not start with the prefix, one whose remainder does not decode, one
    whose payload has no colon, and one whose pair differs.  The payload
    [admin:pa:ss] is cut into the user name [admin] and the password
    [pa:ss]. *)
Theorem authenticateRequest_spec (ps : ProxyServer) (r0 : http.Request) :
  (authenticateRequest ps r0 = true ↔
   ∃ enc payload,
     credential r0 = "Basic " +:+ enc
     ∧ base64.DecodeString enc = Some payload
     ∧ splits_at_first_colon payload (username ps) (password ps))
  ∧ (http.Header r0 !! "Proxy-Authorization" = None →
     authenticateRequest ps r0 = false)
  ∧ ((∀ rest, credential r0 ≠ "Basic " +:+ rest) →
     authenticateRequest ps r0 = false)
  ∧ (∀ enc, credential r0 = "Basic " +:+ enc →
       base64.DecodeString enc = None →
       authenticateRequest ps r0 = false)
  ∧ (∀ enc payload, credential r0 = "Basic " +:+ enc →
       base64.DecodeString enc = Some payload →
       ¬ has_colon payload →
       authenticateRequest ps r0 = false)
  ∧ (∀ enc payload u p, credential r0 = "Basic " +:+ enc →
       base64.DecodeString enc = Some payload →
       splits_at_first_colon payload u p →
       u ≠ username ps ∨ p ≠ password ps →
       authenticateRequest ps r0 = false)
  ∧ (base64.DecodeString "YWRtaW46cGE6c3M=" = Some "admin:pa:ss"
     ∧ splits_at_first_colon "admin:pa:ss" "admin" "pa:ss"
     ∧ (credential r0 = "Basic YWRtaW46cGE6c3M=" →
        (authenticateRequest ps r0 = true
         ↔ username ps = "admin" ∧ password ps = "pa:ss"))).
Proof.
  split; [apply authenticate_true_iff|].
  split.
  { intros Hnone. apply authenticate_no_prefix.
    by rewrite (credential_absent r0 Hnone). }
  split.
  { intros Hno. apply authenticate_no_prefix.
    destruct (strings.HasPrefix (credential r0) "Basic ") eqn:Hpre; [|done].
    apply HasPrefix_inv in Hpre. by apply Hno in Hpre. }
  split; [apply authenticate_undecodable|].
  split.
  { intros enc payload Hauth Hdec Hc.
    by rewrite (authenticate_payload ps r0 enc payload Hauth Hdec), SplitN_no_colon. }
  split.
  { intros enc payload u p Hauth Hdec [-> Hu] Hne.
    rewrite (authenticate_payload ps r0 enc _ Hauth Hdec), SplitN_first_colon by done.
    destruct (String.eqb_spec u (username ps)), (String.eqb_spec p (password ps));
      try done.
    by destruct Hne. }
  assert (Hsplit : splits_at_first_colon "admin:pa:ss" "admin" "pa:ss").
  { split; [done|]. unfold has_colon. rewrite list_elem_of_In. simpl.
    intuition discriminate. }
  split; [done|]. split; [done|].
  intros Hauth.
  rewrite (authenticate_payload ps r0 "YWRtaW46cGE6c3M=" "admin:pa:ss" Hauth eq_refl).
  destruct Hsplit as [-> Hu]. rewrite SplitN_first_colon by done.
  rewrite andb_true_iff, !String.eqb_eq. split; intros [<- <-]; done.
Qed.

(** A request that carries [admin:pa:ss] is accepted by a server configured
    with the user name [admin] and the password [pa:ss]. *)
Lemma authenticateRequest_spec_witness :
  authenticateRequest (NewProxyServer "admin" "pa:ss" "8080")
    (request0 "GET" "http://example.com" "example.com" "Basic YWRtaW46cGE6c3M=")
  = true.
Proof.
  apply (proj2 (proj2 (proj2 (proj2 (proj2 (proj2 (proj2 (proj2 (proj2
    (authenticateRequest_spec (NewProxyServer "admin" "pa:ss" "8080")
       (request0 "GET" "http://example.com" "example.com"
          "Basic YWRtaW46cGE6c3M="))))))))) eq_refl)).
  split; reflexivity.
Defined.

(** C10.  The prefix check is exact: a credential header that does not start
    with the six bytes [Basic ], in this case and with the space, is
    rejected, also when what follows is the encoding of the configured pair.
    So are [basic ], [BASIC ], [Basic] without the space, and [Basic] with a
    second space before the encoding. *)
Theorem authenticateRequest_prefix_exact (ps : ProxyServer) (r0 : http.Request) :
  ((∀ rest, credential r0 ≠ "Basic " +:+ rest) →
   authenticateRequest ps r0 = false)
  ∧ (∀ rest, credential r0 = "basic " +:+ rest → authenticateRequest ps r0 = false)
  ∧ (∀ rest, credential r0 = "BASIC " +:+ rest → authenticateRequest ps r0 = false)
  ∧ (∀ rest, credential r0 = "Basic" +:+ rest →
       (∀ rest', rest ≠ " " +:+ rest') → authenticateRequest ps r0 = false)
  ∧ (∀ rest, credential r0 = "Basic  " +:+ rest → authenticateRequest ps r0 = false).
Proof.
  split.
  { intros Hno. apply authenticate_no_prefix.
    destruct (strings.HasPrefix (credential r0) "Basic ") eqn:Hpre; [|done].
    apply HasPrefix_inv in Hpre. by apply Hno in Hpre. }
  split.
  { intros rest Hauth. apply authenticate_no_prefix. by rewrite Hauth. }
  split.
  { intros rest Hauth. apply authenticate_no_prefix. by rewrite Hauth. }
  split.
  { intros rest Hauth Hrest. apply authenticate_no_prefix.
    destruct (strings.HasPrefix (credential r0) "Basic ") eqn:Hpre; [|done].
    apply HasPrefix_inv in Hpre. rewrite Hauth in Hpre at 1.
    injection Hpre as Hpre. by apply Hrest in Hpre. }
  intros rest Hauth.
  by apply (authenticate_undecodable ps r0 (" " +:+ rest)).
Qed.

(** The configured pair of [proxy0], correctly encoded, behind [basic ]. *)
Lemma authenticateRequest_prefix_exact_witness :
  base64.DecodeString "YWRtaW46cGFzc3dvcmQxMjM=" = Some "admin:password123"
  ∧ authenticateRequest proxy0
      (request0 "GET" "http://example.com" "example.com"
         "basic YWRtaW46cGFzc3dvcmQxMjM=") = false
  ∧ authenticateRequest proxy0
      (request0 "GET" "http://example.com" "example.com"
         "BASIC YWRtaW46cGFzc3dvcmQxMjM=") = false.
Proof.
  split; [reflexivity|]. split.
  - apply (proj1 (proj2 (authenticateRequest_prefix_exact proxy0
      (request0 "GET" "http://example.com" "example.com"
         "basic YWRtaW46cGFzc3dvcmQxMjM="))) "YWRtaW46cGFzc3dvcmQxMjM=").
    reflexivity.
  - apply (proj1 (proj2 (proj2 (authenticateRequest_prefix_exact proxy0
      (request0 "GET" "http://example.com" "example.com"
         "BASIC YWRtaW46cGFzc3dvcmQxMjM=")))) "YWRtaW46cGFzc3dvcmQxMjM=").
    reflexivity.
Defined.

(** ** Header maps and the two copy loops *)

Section Headers.

Lemma values_None (h : http.MIMEHeader) k : h !! k = None → http.values h k = [].
Proof. unfold http.values. by intros ->. Qed.

Lemma values_insert (h : http.MIMEHeader) k vs : http.values (<[k := vs]> h) k = vs.
Proof. unfold http.values. by rewrite lookup_insert_eq. Qed.

Lemma Add_canonical (h : http.MIMEHeader) k v :
  textproto.CanonicalMIMEHeaderKey k = k →
  http.Add h k v = <[k := http.values h k ++ [v]]> h.
Proof. unfold http.Add. by intros ->. Qed.

(** Adding the values of one name, one after the other, appends them in
    their order to the values the name has. *)
Lemma add_values (h : http.MIMEHeader) k vs :
  textproto.CanonicalMIMEHeaderKey k = k →
  vs ≠ [] →
  foldl (λ h value, http.Add h k value) h vs = <[k := http.values h k ++ vs]> h.
Proof.
  intros Hk. revert h. induction vs as [|v vs IH]; intros h Hvs; [done|].
  cbn [foldl]. rewrite Add_canonical by done.
  destruct vs as [|v' vs]; [done|].
  rewrite IH by done. rewrite values_insert, insert_insert_eq.
  by rewrite <- app_assoc.
Qed.

Lemma add_all_disjoint entries (h : http.MIMEHeader) :
  NoDup entries.*1 →
  (∀ k vs, (k, vs) ∈ entries → textproto.CanonicalMIMEHeaderKey k = k ∧ vs ≠ []) →
  (∀ k, k ∈ entries.*1 → h !! k = None) →
  add_all entries h = list_to_map entries ∪ h.
Proof.
  revert h. induction entries as [|[k vs] entries IH]; intros h Hnd Hwf Hfresh.
  - cbn. by rewrite (left_id_L ∅ (∪)).
  - apply NoDup_cons in Hnd as [Hk Hnd]. cbn in Hk.
    destruct (Hwf k vs) as [Hcan Hvs]; [left|].
    unfold add_all. cbn [foldl fst snd].
    rewrite add_values by done.
    rewrite values_None by (apply Hfresh; left).
    cbn [app]. fold (add_all entries (<[k:=vs]> h)).
    rewrite IH; [| done | intros; apply Hwf; by right |].
    + cbn [list_to_map foldr]. cbn.
      rewrite <- insert_union_l, <- insert_union_r; [done|].
      by apply not_elem_of_list_to_map_1.
    + intros k' Hk'. rewrite lookup_insert_ne.
      * apply Hfresh. by right.
      * intros ->. done.
Qed.

(** Copying a well-formed header map into an empty one gives the map back,
    whatever the order of the visit. *)
Lemma add_all_range env (h : http.MIMEHeader) :
  range_ok env → wf_header h → add_all (range_order env h) ∅ = h.
Proof.
  intros Hrange Hwf. rewrite add_all_disjoint.
  - rewrite (right_id_L ∅ (∪)).
    rewrite (list_to_map_proper _ (map_to_list h)).
    + apply list_to_map_to_list.
    + rewrite (Hrange h). apply NoDup_fst_map_to_list.
    + apply Hrange.
  - rewrite (Hrange h). apply NoDup_fst_map_to_list.
  - intros k vs Hin. rewrite (Hrange h) in Hin.
    apply elem_of_map_to_list in Hin. by apply Hwf in Hin.
  - intros. apply lookup_empty.
Qed.

End Headers.

(** ** What the calls of the handlers do to the world *)

Section Runs.

Lemma append_empty_r s : s +:+ EmptyString = s.
Proof.
  induction s as [|a s IH]; [done|].
  change (String a (s +:+ EmptyString) = String a s). by rewrite IH.
Qed.

Lemma for_range_values k vs s :
  for_range vs (λ value, w_Header_Add k value) s
  = Ret tt (with_handlerHeader s
              (foldl (λ h value, http.Add h k value) (http.handlerHeader (w s)) vs)).
Proof.
  revert s. induction vs as [|v vs IH]; intros s.
  - by destruct s as [[] ? ? ?].
  - cbn [for_range foldl]. unfold mbind, M_bind.
    change (w_Header_Add k v s)
      with (Ret tt (with_handlerHeader s (http.Add (http.handlerHeader (w s)) k v))).
    cbv iota beta. by rewrite IH.
Qed.

Lemma copy_response_headers_run entries s :
  copy_response_headers entries s
  = Ret tt (with_handlerHeader s (add_all entries (http.handlerHeader (w s)))).
Proof.
  unfold copy_response_headers. revert s.
  induction entries as [|[k vs] entries IH]; intros s.
  - by destruct s as [[] ? ? ?].
  - cbn [for_range]. unfold mbind, M_bind.
    cbn [fst snd]. rewrite for_range_values. cbv iota beta. by rewrite IH.
Qed.

Lemma foldl_req_Header_Add k vs q :
  foldl (λ q value, req_Header_Add q k value) q vs
  = with_Header q (foldl (λ h value, http.Add h k value) (http.Header q) vs).
Proof.
  revert q. induction vs as [|v vs IH]; intros q.
  - by destruct q.
  - cbn [foldl]. by rewrite IH.
Qed.

Lemma copy_request_headers_run entries q :
  copy_request_headers entries q = with_Header q (add_all entries (http.Header q)).
Proof.
  unfold copy_request_headers. revert q.
  induction entries as [|[k vs] entries IH]; intros q.
  - by destruct q.
  - cbn [foldl fst snd]. rewrite foldl_req_Header_Add. by rewrite IH.
Qed.

Lemma copy_chunks_run cs ending s :
  http.wroteHeader (w s) = true →
  copy_chunks cs ending s = Ret ending (after_copy s cs).
Proof.
  revert s. induction cs as [|c cs IH]; intros s Hsent.
  - destruct s as [[] ? ? ?]. unfold after_copy. cbn.
    by rewrite append_empty_r, app_nil_r.
  - cbn [copy_chunks]. unfold mbind at 1, M_bind at 1.
    destruct (0 <? String.length c)%nat eqn:Hc.
    + unfold Write, WriteHeader. unfold mbind, M_bind, get_w. cbv beta.
      rewrite Hsent. cbn [mret M_ret set_w emit w r defers trace].
      rewrite IH by done. f_equal.
      unfold after_copy. rewrite filter_cons_True by done.
      cbn [w r defers trace http.handlerHeader http.wroteHeader
        http.Code http.sentHeader http.written http.hijacker join foldr map].
      by rewrite append_assoc, <- app_assoc.
    + cbn [mret M_ret]. rewrite IH by done. f_equal.
      unfold after_copy. rewrite filter_cons_False by (unfold nonempty; congruence).
      by destruct c.
Qed.

End Runs.

(** ** The paths through the two handlers *)

Ltac run_handler :=
  unfold handleHTTP, handleHTTPS, call, handleHTTP_body, handleHTTPS_body,
    reject, http_Error, r_Header_Del, Do, DialTimeout, WriteHeader, Write,
    w_Header_Set, log_Printf, defer, get_r, get_w, set_r, set_w, emit,
    mbind, M_bind, mret, M_ret, inbound, enter, http.newWriter;
  cbn [w r defers trace negb Timeout
       http.handlerHeader http.wroteHeader http.Code http.sentHeader
       http.written http.hijacker
       http.Method http.URL http.Host http.RemoteAddr http.Header http.Body];
  change (http.validWriteHeaderCode http.StatusOK) with true;
  change (http.validWriteHeaderCode http.StatusProxyAuthRequired) with true;
  change (http.validWriteHeaderCode http.StatusInternalServerError) with true;
  change (http.validWriteHeaderCode http.StatusBadGateway) with true;
  cbn [w r defers trace negb Timeout
       http.handlerHeader http.wroteHeader http.Code http.sentHeader
       http.written http.hijacker
       http.Method http.URL http.Host http.RemoteAddr http.Header http.Body].

(** A request that is not authenticated gets the challenge, whatever was
    logged before the handler was entered. *)
Lemma handleHTTP_rejects_after ps env hj r0 tr :
  authenticateRequest ps r0 = false →
  handleHTTP ps env {| w := http.newWriter hj; r := r0; defers := []; trace := tr |}
  = Ret tt {| w := responded hj http.StatusProxyAuthRequired reject_header reject_body;
              r := r0; defers := [];
              trace := tr ++ [EvStatus http.StatusProxyAuthRequired reject_header;
                              EvBody reject_body] |}.
Proof.
  intros Hauth. run_handler. rewrite Hauth. run_handler. unfold run_defers.
  cbn [w r defers trace map]. rewrite app_nil_r, <- app_assoc. reflexivity.
Qed.

Lemma handleHTTPS_rejects_after ps env hj r0 tr :
  authenticateRequest ps r0 = false →
  handleHTTPS ps env {| w := http.newWriter hj; r := r0; defers := []; trace := tr |}
  = Ret None {| w := responded hj http.StatusProxyAuthRequired reject_header reject_body;
                r := r0; defers := [];
                trace := tr ++ [EvStatus http.StatusProxyAuthRequired reject_header;
                                EvBody reject_body] |}.
Proof.
  intros Hauth. run_handler. rewrite Hauth. run_handler. unfold run_defers.
  cbn [w r defers trace map]. rewrite app_nil_r, <- app_assoc. reflexivity.
Qed.

Lemma handleHTTP_rejects ps env hj r0 :
  authenticateRequest ps r0 = false →
  handleHTTP ps env (inbound hj r0)
  = Ret tt {| w := responded hj http.StatusProxyAuthRequired reject_header reject_body;
              r := r0; defers := [];
              trace := [EvStatus http.StatusProxyAuthRequired reject_header;
                        EvBody reject_body] |}.
Proof. apply (handleHTTP_rejects_after ps env hj r0 []). Qed.

Lemma handleHTTPS_rejects ps env hj r0 :
  authenticateRequest ps r0 = false →
  handleHTTPS ps env (inbound hj r0)
  = Ret None {| w := responded hj http.StatusProxyAuthRequired reject_header reject_body;
                r := r0; defers := [];
                trace := [EvStatus http.StatusProxyAuthRequired reject_header;
                          EvBody reject_body] |}.
Proof. apply (handleHTTPS_rejects_after ps env hj r0 []). Qed.

Lemma ServeHTTP_rejects ps env hj r0 :
  authenticateRequest ps r0 = false →
  ServeHTTP ps env (inbound hj r0)
  = Ret None {| w := responded hj http.StatusProxyAuthRequired reject_header reject_body;
                r := r0; defers := [];
                trace := [EvLog (request_line r0);
                          EvStatus http.StatusProxyAuthRequired reject_header;
                          EvBody reject_body] |}.
Proof.
  intros Hauth. unfold ServeHTTP.
  unfold mbind at 1 2, M_bind at 1 2, get_r at 1, log_Printf, emit, inbound, enter.
  cbn [w r defers trace app].
  destruct (String.eqb (http.Method r0) "CONNECT").
  - by rewrite handleHTTPS_rejects_after.
  - unfold mbind, M_bind. by rewrite handleHTTP_rejects_after.
Qed.

Lemma handleHTTP_construction_fails ps env hj r0 :
  authenticateRequest ps r0 = true →
  proxy_request env r0 = None →
  handleHTTP ps env (inbound hj r0)
  = Ret tt {| w := responded hj http.StatusInternalServerError (error_header ∅)
                     ("Error creating proxy request" +:+ newline);
              r := with_Header r0 (stripped (http.Header r0));
              defers := [];
              trace := [EvStatus http.StatusInternalServerError (error_header ∅);
                        EvBody ("Error creating proxy request" +:+ newline)] |}.
Proof.
  intros Hauth Hq. unfold proxy_request in Hq.
  destruct (NewRequest env (http.Method r0) (http.URL r0) (http.Body r0))
    as [q0|] eqn:Hnew; [done|].
  run_handler. rewrite Hauth. run_handler. rewrite Hnew. reflexivity.
Qed.

Lemma handleHTTP_unreachable ps env hj r0 q :
  authenticateRequest ps r0 = true →
  proxy_request env r0 = Some q →
  client_Do env (30 * Second) q = None →
  handleHTTP ps env (inbound hj r0)
  = Ret tt {| w := responded hj http.StatusBadGateway (error_header ∅)
                     ("Error making proxy request" +:+ newline);
              r := with_Header r0 (stripped (http.Header r0));
              defers := [];
              trace := [EvDo (30 * Second) q;
                        EvStatus http.StatusBadGateway (error_header ∅);
                        EvBody ("Error making proxy request" +:+ newline)] |}.
Proof.
  intros Hauth Hq Hdo. unfold proxy_request in Hq.
  destruct (NewRequest env (http.Method r0) (http.URL r0) (http.Body r0))
    as [q0|] eqn:Hnew; [|done].
  injection Hq as Hq.
  run_handler. rewrite Hauth. run_handler. rewrite Hnew.
  fold (stripped (http.Header r0)). rewrite Hq, Hdo. reflexivity.
Qed.

Lemma handleHTTP_relays ps env hj r0 q resp :
  authenticateRequest ps r0 = true →
  proxy_request env r0 = Some q →
  client_Do env (30 * Second) q = Some resp →
  http.validWriteHeaderCode (http.StatusCode resp) = true →
  handleHTTP ps env (inbound hj r0)
  = Ret tt {| w := responded hj (http.StatusCode resp)
                     (add_all (range_order env (http.RespHeader resp)) ∅)
                     (join (http.chunks (http.RespBody resp)));
              r := with_Header r0 (stripped (http.Header r0));
              defers := [];
              trace :=
                [EvDo (30 * Second) q;
                 EvStatus (http.StatusCode resp)
                   (add_all (range_order env (http.RespHeader resp)) ∅)]
                ++ map EvBody (filter (λ c, nonempty c = true)
                                 (http.chunks (http.RespBody resp)))
                ++ copy_log (http.failure (http.RespBody resp))
                ++ [EvClose CloseRespBody] |}.
Proof.
  intros Hauth Hq Hdo Hcode. unfold proxy_request in Hq.
  destruct (NewRequest env (http.Method r0) (http.URL r0) (http.Body r0))
    as [q0|] eqn:Hnew; [|done].
  injection Hq as Hq.
  run_handler. rewrite Hauth. run_handler. rewrite Hnew.
  fold (stripped (http.Header r0)). rewrite Hq, Hdo.
  rewrite copy_response_headers_run. unfold with_handlerHeader.
  run_handler. rewrite Hcode. run_handler.
  unfold io_Copy_w. rewrite copy_chunks_run by done.
  unfold after_copy, run_defers, responded, copy_log.
  destruct (http.failure (http.RespBody resp)) as [e|];
    cbn [w r defers trace http.handlerHeader http.wroteHeader http.Code
         http.sentHeader http.written http.hijacker map];
    rewrite ?app_nil_r; repeat rewrite <- app_assoc; reflexivity.
Qed.

Lemma handleHTTPS_dial_fails ps env hj r0 :
  authenticateRequest ps r0 = true →
  net_DialTimeout env "tcp" (http.Host r0) (30 * Second) = false →
  handleHTTPS ps env (inbound hj r0)
  = Ret None {| w := responded hj http.StatusBadGateway (error_header ∅)
                       ("Error connecting to destination" +:+ newline);
                r := r0; defers := [];
                trace := [EvDial "tcp" (http.Host r0) (30 * Second);
                          EvStatus http.StatusBadGateway (error_header ∅);
                          EvBody ("Error connecting to destination" +:+ newline)] |}.
Proof.
  intros Hauth Hdial. run_handler. rewrite Hauth. run_handler.
  rewrite Hdial. reflexivity.
Qed.

(** After a successful dial the header is out with the status 200 before
    the writer is asked for the takeover; the calls of [http.Error] that may
    follow add their text to the body and do not change the status. *)
Lemma handleHTTPS_not_hijacker ps env r0 :
  authenticateRequest ps r0 = true →
  net_DialTimeout env "tcp" (http.Host r0) (30 * Second) = true →
  handleHTTPS ps env (inbound None r0)
  = Ret None {| w := {| http.handlerHeader := error_header ∅;
                        http.wroteHeader := true; http.Code := http.StatusOK;
                        http.sentHeader := ∅;
                        http.written := "Hijacking not supported" +:+ newline;
                        http.hijacker := None |};
                r := r0; defers := [];
                trace := [EvDial "tcp" (http.Host r0) (30 * Second);
                          EvStatus http.StatusOK ∅;
                          EvAssertHijacker false;
                          EvBody ("Hijacking not supported" +:+ newline);
                          EvClose (CloseConn destConn)] |}.
Proof.
  intros Hauth Hdial. run_handler. rewrite Hauth. run_handler.
  rewrite Hdial. reflexivity.
Qed.

Lemma handleHTTPS_hijack_fails ps env r0 :
  authenticateRequest ps r0 = true →
  net_DialTimeout env "tcp" (http.Host r0) (30 * Second) = true →
  handleHTTPS ps env (inbound (Some false) r0)
  = Ret None {| w := {| http.handlerHeader := error_header ∅;
                        http.wroteHeader := true; http.Code := http.StatusOK;
                        http.sentHeader := ∅;
                        http.written := "Error hijacking connection" +:+ newline;
                        http.hijacker := Some false |};
                r := r0; defers := [];
                trace := [EvDial "tcp" (http.Host r0) (30 * Second);
                          EvStatus http.StatusOK ∅;
                          EvAssertHijacker true;
                          EvHijack false;
                          EvBody ("Error hijacking connection" +:+ newline);
                          EvClose (CloseConn destConn)] |}.
Proof.
  intros Hauth Hdial. run_handler. rewrite Hauth. run_handler.
  rewrite Hdial. reflexivity.
Qed.

Lemma handleHTTPS_tunnels ps env r0 :
  authenticateRequest ps r0 = true →
  net_DialTimeout env "tcp" (http.Host r0) (30 * Second) = true →
  handleHTTPS ps env (inbound (Some true) r0)
  = Ret (Some (tunnel_start [CloseConn clientConn; CloseConn destConn]))
        {| w := responded (Some true) http.StatusOK ∅ EmptyString;
           r := r0; defers := [CloseConn clientConn; CloseConn destConn];
           trace := [EvDial "tcp" (http.Host r0) (30 * Second);
                     EvStatus http.StatusOK ∅;
                     EvAssertHijacker true;
                     EvHijack true;
                     EvGo] |}.
Proof.
  intros Hauth Hdial. run_handler. rewrite Hauth. run_handler.
  rewrite Hdial. reflexivity.
Qed.

Lemma handleHTTP_invalid_status ps env hj r0 q resp :
  authenticateRequest ps r0 = true →
  proxy_request env r0 = Some q →
  client_Do env (30 * Second) q = Some resp →
  http.validWriteHeaderCode (http.StatusCode resp) = false →
  handleHTTP ps env (inbound hj r0)
  = Panicked "invalid WriteHeader code"
      {| w := {| http.handlerHeader :=
                   add_all (range_order env (http.RespHeader resp)) ∅;
                 http.wroteHeader := false; http.Code := 200;
                 http.sentHeader := ∅; http.written := EmptyString;
                 http.hijacker := hj |};
         r := with_Header r0 (stripped (http.Header r0));
         defers := [];
         trace := [EvDo (30 * Second) q; EvClose CloseRespBody] |}.
Proof.
  intros Hauth Hq Hdo Hcode. unfold proxy_request in Hq.
  destruct (NewRequest env (http.Method r0) (http.URL r0) (http.Body r0))
    as [q0|] eqn:Hnew; [|done].
  injection Hq as Hq.
  run_handler. rewrite Hauth. run_handler. rewrite Hnew.
  fold (stripped (http.Header r0)). rewrite Hq, Hdo.
  rewrite copy_response_headers_run. unfold with_handlerHeader.
  run_handler. rewrite Hcode. reflexivity.
Qed.

(** ** The outbound request *)

Lemma stripped_delete (h : http.MIMEHeader) :
  stripped h = delete "Proxy-Connection" (delete "Proxy-Authorization" h).
Proof.
  unfold stripped, http.Del.
  by rewrite canonical_proxy_authorization, canonical_proxy_connection.
Qed.

Lemma wf_header_stripped (h : http.MIMEHeader) : wf_header h → wf_header (stripped h).
Proof.
  intros Hwf k vs. rewrite stripped_delete.
  intros Hk. apply lookup_delete_Some in Hk as [_ Hk].
  apply lookup_delete_Some in Hk as [_ Hk]. by apply Hwf in Hk.
Qed.

Lemma proxy_request_fields env r0 q :
  range_ok env → wf_request r0 → proxy_request env r0 = Some q →
  http.Method q = http.Method r0 ∧ http.URL q = http.URL r0
  ∧ http.Body q = http.Body r0
  ∧ http.Header q = stripped (http.Header r0).
Proof.
  intros Hrange [Hmethod Hwf] Hq. unfold proxy_request, NewRequest in Hq.
  apply String.eqb_neq in Hmethod. rewrite Hmethod in Hq.
  destruct (negb (http.validMethod (http.Method r0))); [done|].
  destruct (url_Parse env (http.URL r0)) as [host|]; [|done].
  injection Hq as <-. rewrite copy_request_headers_run.
  cbn [with_Header http.Method http.URL http.Body http.Header].
  repeat split; try done.
  by apply add_all_range, wf_header_stripped.
Qed.

(** ** The authentication gate of the relays *)

(** C2.  A request that is not authenticated, of any method and through
    either relay, is answered with the status 407, the challenge header
    [Proxy-Authenticate] naming the realm and the plain text
    [Proxy Authentication Required]; no outbound request, no dial and no
    takeover is attempted. *)
Theorem unauthenticated_gets_challenge (ps : ProxyServer) (env : Env)
    (hj : option bool) (r0 : http.Request) :
  authenticateRequest ps r0 = false →
  let plain := handleHTTP ps env (inbound hj r0) in
  let tunnel := handleHTTPS ps env (inbound hj r0) in
  let served := ServeHTTP ps env (inbound hj r0) in
  response (final plain) = (http.StatusProxyAuthRequired, reject_header, reject_body)
  ∧ response (final tunnel) = (http.StatusProxyAuthRequired, reject_header, reject_body)
  ∧ response (final served) = (http.StatusProxyAuthRequired, reject_header, reject_body)
  ∧ http.StatusProxyAuthRequired = 407
  ∧ reject_header !! "Proxy-Authenticate"
    = Some ["Basic realm=" +:+ quote +:+ "Proxy Server" +:+ quote]
  ∧ reject_header !! "Content-Type" = Some ["text/plain; charset=utf-8"]
  ∧ reject_body = "Proxy Authentication Required" +:+ newline
  ∧ returned plain = Some tt
  ∧ returned tunnel = Some None
  ∧ returned served = Some None
  ∧ Forall (λ e, reaches_out e = false)
      (trace (final plain) ++ trace (final tunnel) ++ trace (final served)).
Proof.
  intros Hauth plain tunnel served. subst plain tunnel served.
  rewrite (handleHTTP_rejects ps env hj r0 Hauth),
    (handleHTTPS_rejects ps env hj r0 Hauth), (ServeHTTP_rejects ps env hj r0 Hauth).
  repeat split; try reflexivity.
  cbn [final trace app]. repeat constructor.
Qed.

(** [TestHandleHTTP_Authentication] and [TestHandleHTTPS_Authentication]:
    [wrong:credentials] on a recorder. *)
Lemma unauthenticated_gets_challenge_witness :
  http.Code (w (final (ServeHTTP proxy0
      {| url_Parse := λ _, Some "example.com";
         client_Do := λ _ _, None;
         net_DialTimeout := λ _ _ _, true;
         range_order := map_to_list |}
      (inbound None
         (request0 "CONNECT" "example.com:443" "example.com:443"
            (CreateBasicAuth "wrong" "credentials"))))))
  = 407.
Proof.
  pose proof (unauthenticated_gets_challenge proxy0
      {| url_Parse := λ _, Some "example.com";
         client_Do := λ _ _, None;
         net_DialTimeout := λ _ _ _, true;
         range_order := map_to_list |}
      None
      (request0 "CONNECT" "example.com:443" "example.com:443"
         (CreateBasicAuth "wrong" "credentials"))
      eq_refl) as (_ & _ & Hserved & _).
  exact (f_equal (λ x, x.1.1) Hserved).
Defined.

(** C8.  Two requests that fail the authentication, at whatever stage, get
    the same answer of the authenticator and responses that do not differ
    in the status, in the headers or in the body, through either relay. *)
Theorem authentication_failures_indistinguishable (ps : ProxyServer)
    (env1 env2 : Env) (hj1 hj2 : option bool) (r1 r2 : http.Request) :
  authenticateRequest ps r1 = false →
  authenticateRequest ps r2 = false →
  authenticateRequest ps r1 = authenticateRequest ps r2
  ∧ response (final (handleHTTP ps env1 (inbound hj1 r1)))
    = response (final (handleHTTP ps env2 (inbound hj2 r2)))
  ∧ response (final (handleHTTPS ps env1 (inbound hj1 r1)))
    = response (final (handleHTTPS ps env2 (inbound hj2 r2)))
  ∧ response (final (handleHTTP ps env1 (inbound hj1 r1)))
    = response (final (handleHTTPS ps env2 (inbound hj2 r2)))
  ∧ response (final (ServeHTTP ps env1 (inbound hj1 r1)))
    = response (final (ServeHTTP ps env2 (inbound hj2 r2))).
Proof.
  intros H1 H2.
  rewrite (handleHTTP_rejects ps env1 hj1 r1 H1), (handleHTTP_rejects ps env2 hj2 r2 H2),
    (handleHTTPS_rejects ps env1 hj1 r1 H1), (handleHTTPS_rejects ps env2 hj2 r2 H2),
    (ServeHTTP_rejects ps env1 hj1 r1 H1), (ServeHTTP_rejects ps env2 hj2 r2 H2).
  rewrite H1, H2. repeat split.
Qed.

(** A GET without the credential header and a CONNECT with a pair that does
    not match. *)
Lemma authentication_failures_indistinguishable_witness :
  response (final (ServeHTTP proxy0 env_down (inbound None bare_request)))
  = response (final (ServeHTTP proxy0 env_down
      (inbound (Some true)
         (request0 "CONNECT" "example.com:443" "example.com:443"
            (CreateBasicAuth "admin" "wrong"))))).
Proof.
  apply (authentication_failures_indistinguishable proxy0 env_down env_down None (Some true)
           bare_request
           (request0 "CONNECT" "example.com:443" "example.com:443"
              (CreateBasicAuth "admin" "wrong"))
           eq_refl eq_refl).
Defined.

(** ** The plain relay *)

(** C3.  The outbound request of an authenticated plain-relay request has
    the method, the URL and the body stream of the inbound request, and its
    header map is the inbound one without [Proxy-Authorization] and
    [Proxy-Connection]: every other name keeps its values, in their number
    and order.  It is the one request passed to [client.Do]. *)
Theorem outbound_request_forwarded (ps : ProxyServer) (env : Env)
    (hj : option bool) (r0 q : http.Request) :
  range_ok env →
  wf_request r0 →
  authenticateRequest ps r0 = true →
  proxy_request env r0 = Some q →
  let s := final (handleHTTP ps env (inbound hj r0)) in
  (∃ rest, trace s = EvDo (30 * Second) q :: rest
           ∧ Forall (λ e, reaches_out e = false) rest)
  ∧ http.Method q = http.Method r0
  ∧ http.URL q = http.URL r0
  ∧ http.Body q = http.Body r0
  ∧ http.Header q
    = delete "Proxy-Connection" (delete "Proxy-Authorization" (http.Header r0))
  ∧ http.Header q !! "Proxy-Authorization" = None
  ∧ http.Header q !! "Proxy-Connection" = None
  ∧ (∀ name, name ≠ "Proxy-Authorization" → name ≠ "Proxy-Connection" →
       http.Header q !! name = http.Header r0 !! name)
  ∧ http.Header (r s) = http.Header q.
Proof.
  intros Hrange Hwf Hauth Hq s.
  destruct (proxy_request_fields env r0 q Hrange Hwf Hq) as (Hm & Hu & Hb & Hh).
  rewrite stripped_delete in Hh.
  assert (Hs : (∃ rest, trace s = EvDo (30 * Second) q :: rest
                        ∧ Forall (λ e, reaches_out e = false) rest)
               ∧ http.Header (r s) = stripped (http.Header r0)).
  { subst s. destruct (client_Do env (30 * Second) q) as [resp|] eqn:Hdo.
    - destruct (http.validWriteHeaderCode (http.StatusCode resp)) eqn:Hcode.
      + rewrite (handleHTTP_relays ps env hj r0 q resp Hauth Hq Hdo Hcode).
        split; [|done]. eexists. split; [reflexivity|].
        constructor; [done|]. apply Forall_app. split.
        { apply Forall_forall. intros e [c [-> _]]%list_elem_of_fmap. done. }
        apply Forall_app. split; [|by repeat constructor].
        unfold copy_log. destruct (http.failure (http.RespBody resp));
          by repeat constructor.
      + rewrite (handleHTTP_invalid_status ps env hj r0 q resp Hauth Hq Hdo Hcode).
        split; [|done]. eexists. split; [reflexivity|]. by repeat constructor.
    - rewrite (handleHTTP_unreachable ps env hj r0 q Hauth Hq Hdo).
      split; [|done]. eexists. split; [reflexivity|]. by repeat constructor. }
  destruct Hs as [Htrace Hr].
  split; [done|]. split; [done|]. split; [done|]. split; [done|]. split; [done|].
  split; [by rewrite Hh, lookup_delete_ne, lookup_delete_eq|].
  split; [by rewrite Hh, lookup_delete_eq|].
  split.
  - intros name Hn1 Hn2. by rewrite Hh, !lookup_delete_ne.
  - by rewrite Hr, stripped_delete, Hh.
Qed.


(** ** Targets that cannot be reached *)

(** C6.  When the outbound request of an authenticated plain-relay request
    fails (the client gives up after 30 seconds), and when the dial of an
    authenticated CONNECT fails, the client gets the status 502.  There is
    one attempt and no other; for the tunnel there is no takeover, the
    handler returns, and nothing is left open or deferred. *)
Theorem unreachable_target_bad_gateway (ps : ProxyServer) (env : Env)
    (hj : option bool) (r0 : http.Request) :
  authenticateRequest ps r0 = true →
  30 * Second = 30000000000
  ∧ http.StatusBadGateway = 502
  ∧ (∀ q, proxy_request env r0 = Some q →
       client_Do env (30 * Second) q = None →
       let res := handleHTTP ps env (inbound hj r0) in
       returned res = Some tt
       ∧ response (final res)
         = (http.StatusBadGateway, error_header ∅,
            "Error making proxy request" +:+ newline)
       ∧ trace (final res)
         = [EvDo (30 * Second) q;
            EvStatus http.StatusBadGateway (error_header ∅);
            EvBody ("Error making proxy request" +:+ newline)])
  ∧ (net_DialTimeout env "tcp" (http.Host r0) (30 * Second) = false →
       let res := handleHTTPS ps env (inbound hj r0) in
       returned res = Some None
       ∧ response (final res)
         = (http.StatusBadGateway, error_header ∅,
            "Error connecting to destination" +:+ newline)
       ∧ trace (final res)
         = [EvDial "tcp" (http.Host r0) (30 * Second);
            EvStatus http.StatusBadGateway (error_header ∅);
            EvBody ("Error connecting to destination" +:+ newline)]
       ∧ defers (final res) = []).
Proof.
  intros Hauth. split; [done|]. split; [done|]. split.
  - intros q Hq Hdo res. subst res.
    by rewrite (handleHTTP_unreachable ps env hj r0 q Hauth Hq Hdo).
  - intros Hdial res. subst res.
    by rewrite (handleHTTPS_dial_fails ps env hj r0 Hauth Hdial).
Qed.

(** ** The takeover *)

(** C9.  After a successful dial of an authenticated CONNECT, the status 200
    is out before the writer is asked whether it can be taken over and
    before the takeover: it is the status the client has, also when the
    takeover is not supported or fails, and no other status follows. *)
Theorem established_status_precedes_takeover (ps : ProxyServer) (env : Env)
    (hj : option bool) (r0 : http.Request) :
  authenticateRequest ps r0 = true →
  net_DialTimeout env "tcp" (http.Host r0) (30 * Second) = true →
  let res := handleHTTPS ps env (inbound hj r0) in
  (∃ rest,
     trace (final res)
     = [EvDial "tcp" (http.Host r0) (30 * Second);
        EvStatus http.StatusOK ∅;
        EvAssertHijacker (bool_decide (hj ≠ None))] ++ rest
     ∧ Forall (λ e, is_status e = false) rest)
  ∧ http.Code (w (final res)) = http.StatusOK
  ∧ http.StatusOK = 200
  ∧ (hj ≠ Some true → returned res = Some None).
Proof.
  intros Hauth Hdial res. subst res. destruct hj as [[|]|].
  - rewrite (handleHTTPS_tunnels ps env r0 Hauth Hdial).
    split; [|done]. eexists. split; [reflexivity|]. by repeat constructor.
  - rewrite (handleHTTPS_hijack_fails ps env r0 Hauth Hdial).
    split; [|done]. eexists. split; [reflexivity|]. by repeat constructor.
  - rewrite (handleHTTPS_not_hijacker ps env r0 Hauth Hdial).
    split; [|done]. eexists. split; [reflexivity|]. by repeat constructor.
Qed.



Lemma wf_header_insert (h : http.MIMEHeader) k vs :
  wf_header h → textproto.CanonicalMIMEHeaderKey k = k → vs ≠ [] →
  wf_header (<[k := vs]> h).
Proof.
  intros Hwf Hk Hvs k' vs' Hlook.
  apply lookup_insert_Some in Hlook as [[<- <-]|[_ Hlook]]; [done|].
  by apply Hwf in Hlook.
Qed.

Lemma wf_header_empty : wf_header ∅.
Proof. intros k vs Hk. by rewrite lookup_empty in Hk. Qed.

Lemma wf_request0 method url host auth :
  method ≠ EmptyString → wf_request (request0 method url host auth).
Proof.
  intros Hm. split; [done|]. unfold request0, http.Set_. cbn [http.Header].
  repeat apply wf_header_insert; first [done | apply wf_header_empty].
Qed.


Lemma wf_get0 : wf_request get0.
Proof. by apply wf_request0. Qed.

Lemma range_ok_map_to_list env : range_order env = map_to_list → range_ok env.
Proof. intros Heq h. by rewrite Heq. Qed.

Lemma proxy_request_get0 : proxy_request env_up get0 = Some outbound0.
Proof. vm_compute. reflexivity. Qed.

(** [TestHeaderHandling]: the custom header is forwarded, the two proxy
    headers are not. *)
Lemma outbound_request_forwarded_witness :
  http.Method outbound0 = "GET"
  ∧ http.Header outbound0 !! "Proxy-Authorization" = None
  ∧ http.Header outbound0 !! "Proxy-Connection" = None
  ∧ http.Header outbound0 !! "Custom-Header" = Some ["CustomValue"].
Proof.
  pose proof (outbound_request_forwarded proxy0 env_up None get0 outbound0
                (range_ok_map_to_list env_up eq_refl)
                wf_get0
                eq_refl proxy_request_get0)
    as (_ & Hm & _ & _ & _ & Hpa & Hpc & Hother & _).
  split; [exact Hm|]. split; [exact Hpa|]. split; [exact Hpc|].
  rewrite (Hother "Custom-Header") by discriminate. reflexivity.
Defined.


(** C4.  An authenticated plain-relay request whose outbound request
    succeeds with the status code 099, which [client.Do] returns as it
    returns any code of three digits: [handleHTTP] copies the headers and
    calls [w.WriteHeader(resp.StatusCode)], which panics for a code outside
    100..999.  The client gets no status, no header and no body, and so not
    the status code of the upstream response; the deferred [Close] of the
    upstream body is all that follows the outbound request. *)
Theorem upstream_status_099_not_relayed :
  let res := handleHTTP proxy0 env_099 (inbound None get0) in
  authenticateRequest proxy0 get0 = true
  ∧ proxy_request env_099 get0 = Some outbound0
  ∧ client_Do env_099 (30 * Second) outbound0 = Some response_099
  ∧ http.StatusCode response_099 = 99
  ∧ returned res = None
  ∧ http.wroteHeader (w (final res)) = false
  ∧ http.sentHeader (w (final res)) = ∅
  ∧ http.written (w (final res)) = EmptyString
  ∧ filter (λ e, is_status e = true) (trace (final res)) = []
  ∧ trace (final res) = [EvDo (30 * Second) outbound0; EvClose CloseRespBody].
Proof. vm_compute. repeat split. Qed.

(** [TestHandleHTTPS_InvalidHost]: a CONNECT whose dial fails. *)
Lemma unreachable_target_bad_gateway_witness :
  http.Code (w (final (handleHTTPS proxy0 env_down (inbound None connect0)))) = 502.
Proof.
  pose proof (proj2 (proj2 (proj2
    (unreachable_target_bad_gateway proxy0 env_down None connect0 eq_refl)))
    eq_refl) as (_ & Hresp & _).
  exact (f_equal (λ x, x.1.1) Hresp).
Defined.

(** A CONNECT on a recorder, which cannot be taken over. *)
Lemma established_status_precedes_takeover_witness :
  http.Code (w (final (handleHTTPS proxy0 env_up (inbound None connect0)))) = 200.
Proof.
  exact (proj1 (proj2 (established_status_precedes_takeover proxy0 env_up None
                         connect0 eq_refl eq_refl))).
Defined.

(** C7.  An authenticated CONNECT whose dial succeeds, on a writer that is
    no [http.Hijacker] (a recorder): [handleHTTPS] calls [http.Error] with
    the status 500, but the status 200 is out already; the client gets 200
    with the text [Hijacking not supported] as the body. *)
Theorem takeover_unsupported_after_status :
  let res := ServeHTTP proxy0 env_up (enter http.NewRecorder connect0) in
  authenticateRequest proxy0 connect0 = true
  ∧ returned res = Some None
  ∧ http.Code (w (final res)) = 200
  ∧ http.Code (w (final res)) ≠ http.StatusInternalServerError
  ∧ http.written (w (final res)) = "Hijacking not supported" +:+ newline
  ∧ trace (final res)
    = [EvLog "127.0.0.1:40000 CONNECT example.com:443";
       EvDial "tcp" "example.com:443" (30 * Second);
       EvStatus 200 ∅;
       EvAssertHijacker false;
       EvBody ("Hijacking not supported" +:+ newline);
       EvClose (CloseConn destConn)].
Proof. vm_compute. repeat split. discriminate. Qed.

(** ** The tunnel session *)

Section Session.

Lemma step_session u io sh sg t' :
  step u io (session sh sg) = Some t' → ∃ sh' sg', t' = session sh' sg'.
Proof.
  destruct u, io, sh, sg; cbn; intros Hstep; try discriminate;
    injection Hstep as <-;
    first [ by exists Reading, Reading | by exists Reading, Writing
          | by exists Reading, Leaving | by exists Reading, Closing
          | by exists Reading, Finished
          | by exists Writing, Reading | by exists Writing, Writing
          | by exists Writing, Leaving | by exists Writing, Closing
          | by exists Writing, Finished
          | by exists Leaving, Reading | by exists Leaving, Writing
          | by exists Leaving, Leaving | by exists Leaving, Closing
          | by exists Leaving, Finished
          | by exists Closing, Reading | by exists Closing, Writing
          | by exists Closing, Leaving | by exists Closing, Closing
          | by exists Closing, Finished
          | by exists Finished, Reading | by exists Finished, Writing
          | by exists Finished, Leaving | by exists Finished, Closing
          | by exists Finished, Finished ].
Qed.

Lemma run_session sched sh sg t :
  run sched (session sh sg) = Some t → ∃ sh' sg', t = session sh' sg'.
Proof.
  revert sh sg. induction sched as [|[u io] sched IH]; intros sh sg Hrun.
  - injection Hrun as <-. by exists sh, sg.
  - cbn [run] in Hrun. destruct (step u io (session sh sg)) as [t1|] eqn:Hstep; [|done].
    apply step_session in Hstep as (sh1 & sg1 & ->). by apply (IH sh1 sg1).
Qed.

(** Every reachable session is one of the twenty-five [session sh sg]. *)
Lemma reachable_session t : reachable t → ∃ sh sg, t = session sh sg.
Proof. intros [sched Hrun]. by apply (run_session sched Reading Reading). Qed.

Lemma run_app sched1 sched2 t :
  run (sched1 ++ sched2) t = run sched1 t ≫= run sched2.
Proof.
  revert t. induction sched1 as [|[u io] sched1 IH]; intros t; [done|].
  cbn [run app]. destruct (step u io t); [apply IH|done].
Qed.

(** Once both endpoints are closed no read and no write moves bytes: every
    step is the last of an [io.Copy] or a [Close], and takes one off what
    is left to do. *)
Lemma step_closed u io t t' :
  both_closed t = true → step u io t = Some t' →
  both_closed t' = true ∧ remaining t = S (remaining t').
Proof.
  unfold both_closed, step, remaining. intros [Hc Hd]%andb_true_iff.
  assert (Hall : ∀ c, is_closed t c = true) by (by intros []).
  destruct u; cbn [prog].
  - destruct (handler t) as [|[dst src|dst src|c] k] eqn:Hp; cbn [exec]; [done|..];
      try (destruct io; rewrite ?Hall; [done|]);
      intros [= <-]; cbn; rewrite Hc, Hd; done.
  - destruct (goroutine t) as [|[dst src|dst src|c] k] eqn:Hp; cbn [exec]; [done|..];
      try (destruct io; rewrite ?Hall; [done|]);
      intros [= <-]; cbn; rewrite Hc, Hd; (split; [done|lia]).
Qed.

Lemma run_closed sched t t' :
  both_closed t = true → run sched t = Some t' →
  both_closed t' = true ∧ remaining t = (length sched + remaining t')%nat.
Proof.
  revert t. induction sched as [|[u io] sched IH]; intros t Hclosed Hrun.
  - by injection Hrun as <-.
  - cbn [run] in Hrun. destruct (step u io t) as [t1|] eqn:Hstep; [|done].
    destruct (step_closed u io t t1 Hclosed Hstep) as [Hclosed1 Hrem].
    destruct (IH t1 Hclosed1 Hrun) as [Hclosed' Hrem'].
    split; [done|]. cbn [length]. lia.
Qed.


Lemma step_other u u' io t t' :
  u ≠ u' → step u' io t = Some t' → prog u t' = prog u t.
Proof.
  unfold step. intros Hne Hstep.
  destruct (exec t io (prog u' t)) as [[p' c]|]; [|done].
  injection Hstep as <-. by destruct u, u'.
Qed.

Lemma step_close u io t t' :
  forallb is_close (prog u t) = true → step u io t = Some t' →
  forallb is_close (prog u t') = true
  ∧ length (prog u t) = S (length (prog u t')).
Proof.
  unfold step. intros Hcl Hstep.
  destruct (prog u t) as [|[dst src|dst src|c] k] eqn:Hp; try done.
  cbn [exec] in Hstep. injection Hstep as <-.
  cbn [forallb is_close andb] in Hcl. by destruct u.
Qed.

(** A unit that is out of its copy takes one step for each [Close] it has
    left, whatever the other unit does in between. *)
Lemma run_closes u sched t t' :
  forallb is_close (prog u t) = true → run sched t = Some t' →
  forallb is_close (prog u t') = true
  ∧ length (prog u t) = (steps_of u sched + length (prog u t'))%nat.
Proof.
  revert t. induction sched as [|[u' io] sched IH]; intros t Hcl Hrun.
  - by injection Hrun as <-.
  - cbn [run] in Hrun. destruct (step u' io t) as [t1|] eqn:Hstep; [|done].
    unfold steps_of. destruct (decide (u' = u)) as [->|Hne].
    + rewrite filter_cons_True by done.
      destruct (step_close u io t t1 Hcl Hstep) as [Hcl1 Hlen].
      destruct (IH t1 Hcl1 Hrun) as [Hcl' Hlen']. split; [done|].
      unfold steps_of in Hlen'. cbn [length]. lia.
    + rewrite filter_cons_False by done.
      rewrite <- (step_other u u' io t t1) in Hcl by done.
      destruct (IH t1 Hcl Hrun) as [Hcl' Hlen']. split; [done|].
      rewrite <- (step_other u u' io t t1) by done. exact Hlen'.
Qed.

Lemma session_finished_closed sh sg u :
  prog u (session sh sg) = [] → both_closed (session sh sg) = true.
Proof. by destruct u, sh, sg. Qed.

Lemma session_wind_down sh sg :
  ∃ t', run (wind_down (session sh sg)) (session sh sg) = Some t'
        ∧ handler t' = [] ∧ goroutine t' = [] ∧ both_closed t' = true.
Proof. destruct sh, sg; eexists; (split; [reflexivity|done]). Qed.

End Session.

(** A session starts only for an authenticated CONNECT whose dial and
    takeover succeeded, and it starts with both units about to read. *)
Lemma handleHTTPS_session ps env hj r0 t0 s0 :
  handleHTTPS ps env (inbound hj r0) = Ret (Some t0) s0 →
  authenticateRequest ps r0 = true
  ∧ net_DialTimeout env "tcp" (http.Host r0) (30 * Second) = true
  ∧ hj = Some true
  ∧ t0 = session Reading Reading.
Proof.
  intros Hrun.
  destruct (authenticateRequest ps r0) eqn:Hauth;
    [|by rewrite (handleHTTPS_rejects ps env hj r0 Hauth) in Hrun].
  destruct (net_DialTimeout env "tcp" (http.Host r0) (30 * Second)) eqn:Hdial;
    [|by rewrite (handleHTTPS_dial_fails ps env hj r0 Hauth Hdial) in Hrun].
  destruct hj as [[|]|].
  - rewrite (handleHTTPS_tunnels ps env r0 Hauth Hdial) in Hrun.
    by injection Hrun as <- _.
  - by rewrite (handleHTTPS_hijack_fails ps env r0 Hauth Hdial) in Hrun.
  - by rewrite (handleHTTPS_not_hijacker ps env r0 Hauth Hdial) in Hrun.
Qed.

(** C5.  In every state an established tunnel session can reach: a unit
    whose copy has ended, by the end of its stream or by an I/O error, has
    the [Close] of every endpoint that is still open ahead, its steps never
    wait, and with its next two steps, whatever the other unit does in
    between, both endpoints are closed; once both are closed no read or
    write of the other unit moves bytes, so that its copy ends at its next
    step, and at most three steps are left in the whole session; a session
    in which no step is possible has both units at their end, a unit at its
    end has both endpoints closed, and every session can run to that end. *)
Theorem tunnel_closes_both_ends (ps : ProxyServer) (env : Env) (hj : option bool)
    (r0 : http.Request) (t0 : Tunnel) (s0 : World)
    (sched : list (ExecUnit * IO)) (t : Tunnel) :
  handleHTTPS ps env (inbound hj r0) = Ret (Some t0) s0 →
  run sched t0 = Some t →
  (∀ u, copying (prog u t) = false →
     (∀ c, is_closed t c = false → IClose (CloseConn c) ∈ prog u t)
     ∧ (prog u t ≠ [] → ∀ io, is_Some (step u io t)))
  ∧ (∀ u t1 sched' t',
       copying (prog u t) = true → step u Ended t = Some t1 →
       run sched' t1 = Some t' → (2 <= steps_of u sched')%nat →
       both_closed t' = true ∧ prog u t' = [])
  ∧ (∀ u, prog u t = [] → both_closed t = true)
  ∧ (both_closed t = true →
       (∀ u, copying (prog u t) = true →
          step u Moved t = None
          ∧ ∃ t1, step u Ended t = Some t1 ∧ copying (prog u t1) = false)
       ∧ (remaining t <= 3)%nat
       ∧ (∀ sched' t', run sched' t = Some t' →
            (length sched' + remaining t')%nat = remaining t))
  ∧ ((∀ u io, step u io t = None) → ∀ u, prog u t = [])
  ∧ (∃ t', run (wind_down t) t = Some t'
           ∧ handler t' = [] ∧ goroutine t' = [] ∧ both_closed t' = true).
Proof.
  intros Hstart Hrun.
  apply handleHTTPS_session in Hstart as (_ & _ & _ & ->).
  apply run_session in Hrun as (sh & sg & ->).
  split.
  { intros u Hcopy. split.
    - intros c Hopen. destruct u, sh, sg, c; try done; cbn; set_solver.
    - intros Hp io. by destruct u, io, sh, sg. }
  split.
  { intros u t1 sched' t' Hcopy Hstep Hrun Hsteps.
    assert (Hleft : prog u t1 = closes_both).
    { destruct u, sh, sg; try done; by injection Hstep as <-. }
    pose proof (step_session _ _ _ _ _ Hstep) as (sh1 & sg1 & ->).
    pose proof (run_session _ _ _ _ Hrun) as (sh' & sg' & ->).
    destruct (run_closes u sched' _ _ ltac:(by rewrite Hleft) Hrun) as [_ Hlen].
    rewrite Hleft in Hlen. cbn [closes_both length] in Hlen.
    assert (Hend : prog u (session sh' sg') = []).
    { destruct (prog u (session sh' sg')); [done|]. cbn [length] in Hlen. lia. }
    split; [|done]. by apply (session_finished_closed sh' sg' u). }
  split; [intros u; apply session_finished_closed|].
  split.
  { intros Hclosed. split; [|split].
    - intros u Hcopy. destruct u, sh, sg; try done; (split; [done|by eexists]).
    - destruct sh, sg; try done; cbn; lia.
    - intros sched' t' Hrun'.
      by destruct (run_closed sched' _ t' Hclosed Hrun') as [_ ->]. }
  split.
  { intros Hstuck u. specialize (Hstuck u Ended). by destruct u, sh, sg. }
  apply session_wind_down.
Qed.

Lemma handleHTTPS_connect0 :
  handleHTTPS proxy0 env_up (inbound (Some true) connect0)
  = Ret (Some (tunnel_start [CloseConn clientConn; CloseConn destConn]))
        {| w := responded (Some true) http.StatusOK ∅ EmptyString;
           r := connect0; defers := [CloseConn clientConn; CloseConn destConn];
           trace := [EvDial "tcp" (http.Host connect0) (30 * Second);
                     EvStatus http.StatusOK ∅;
                     EvAssertHijacker true;
                     EvHijack true;
                     EvGo] |}.
Proof. apply handleHTTPS_tunnels; vm_compute; reflexivity. Qed.

(** The session of [connect0]: the client ends its stream, the goroutine
    leaves its copy and closes both endpoints while the handler is still
    reading from the target; the handler's read then fails. *)
Lemma tunnel_closes_both_ends_witness :
  ∃ t, run [(Handler, Moved); (Handler, Moved); (Goroutine, Ended);
            (Goroutine, Ended); (Handler, Moved); (Goroutine, Ended)]
           (tunnel_start [CloseConn clientConn; CloseConn destConn]) = Some t
       ∧ both_closed t = true
       ∧ step Handler Moved t = None
       ∧ (remaining t <= 3)%nat.
Proof.
  exists (session Writing Finished). split; [reflexivity|].
  pose proof (tunnel_closes_both_ends proxy0 env_up (Some true) connect0
      (tunnel_start [CloseConn clientConn; CloseConn destConn]) _
      [(Handler, Moved); (Handler, Moved); (Goroutine, Ended);
       (Goroutine, Ended); (Handler, Moved); (Goroutine, Ended)]
      (session Writing Finished)
      handleHTTPS_connect0 eq_refl) as (_ & _ & Hend & Hclosed & _).
  pose proof (Hend Goroutine eq_refl) as Hboth.
  destruct (Hclosed Hboth) as (Hcopy & Hrem & _).
  split; [exact Hboth|]. split; [|exact Hrem].
  exact (proj1 (Hcopy Handler eq_refl)).
Defined.

(** ** The encoder and the decoder of base64 *)

Section Base64RoundTrip.

Lemma testbit_63 n : 0 ≤ n → Z.testbit 63 n = (n <? 6).
Proof. intros Hn. change 63 with (Z.ones 6). by apply Z.testbit_ones_nonneg. Qed.

Lemma testbit_255 n : 0 ≤ n → Z.testbit 255 n = (n <? 8).
Proof. intros Hn. change 255 with (Z.ones 8). by apply Z.testbit_ones_nonneg. Qed.

Lemma testbit_sextet v k j :
  0 ≤ k → 0 ≤ j →
  Z.testbit (Z.land (Z.shiftr v k) 63) j = Z.testbit v (j + k) && (j <? 6).
Proof.
  intros Hk Hj. by rewrite Z.land_spec, Z.shiftr_spec, testbit_63.
Qed.

Lemma b_range c : 0 ≤ base64.b c < 256.
Proof.
  unfold base64.b. pose proof (N_ascii_bounded c) as Hc. lia.
Qed.

Lemma testbit_b_high c n : 8 ≤ n → Z.testbit (base64.b c) n = false.
Proof.
  intros Hn. destruct (b_range c) as [Hlo Hhi].
  destruct (Z.eq_dec (base64.b c) 0) as [->|Hne]; [apply Z.bits_0|].
  apply Z.bits_above_log2; [done|].
  assert (Z.log2 (base64.b c) < 8); [|lia].
  apply Z.log2_lt_pow2; lia.
Qed.

Lemma testbit_pack c0 c1 c2 n :
  0 ≤ n →
  Z.testbit (pack c0 c1 c2) n
  = if n <? 8 then Z.testbit (base64.b c2) n
    else if n <? 16 then Z.testbit (base64.b c1) (n - 8)
    else Z.testbit (base64.b c0) (n - 16).
Proof.
  intros Hn. unfold pack. rewrite !Z.lor_spec, !Z.shiftl_spec by done.
  destruct (Z.ltb_spec n 8).
  - rewrite (Z.testbit_neg_r _ (n - 16)), (Z.testbit_neg_r _ (n - 8)) by lia. done.
  - destruct (Z.ltb_spec n 16).
    + rewrite (Z.testbit_neg_r _ (n - 16)) by lia.
      rewrite (testbit_b_high c2) by lia. by rewrite orb_false_r.
    + rewrite (testbit_b_high c2), (testbit_b_high c1) by lia.
      by rewrite !orb_false_r.
Qed.

Lemma testbit_pack_0 c0 c1 c2 n :
  0 ≤ n < 8 → Z.testbit (pack c0 c1 c2) (n + 0) = Z.testbit (base64.b c2) n.
Proof.
  intros Hn. rewrite testbit_pack, Z.add_0_r by lia.
  destruct (Z.ltb_spec n 8); [done|lia].
Qed.

Lemma testbit_pack_8 c0 c1 c2 n :
  0 ≤ n < 8 → Z.testbit (pack c0 c1 c2) (n + 8) = Z.testbit (base64.b c1) n.
Proof.
  intros Hn. rewrite testbit_pack by lia.
  destruct (Z.ltb_spec (n + 8) 8); [lia|].
  destruct (Z.ltb_spec (n + 8) 16); [|lia]. f_equal. lia.
Qed.

Lemma testbit_pack_16 c0 c1 c2 n :
  0 ≤ n < 8 → Z.testbit (pack c0 c1 c2) (n + 16) = Z.testbit (base64.b c0) n.
Proof.
  intros Hn. rewrite testbit_pack by lia.
  destruct (Z.ltb_spec (n + 16) 8); [lia|].
  destruct (Z.ltb_spec (n + 16) 16); [lia|]. f_equal. lia.
Qed.

Lemma testbit_unpack4 v n :
  0 ≤ n → n < 24 →
  Z.testbit (unpack (sextet v 18) (sextet v 12) (sextet v 6) (sextet v 0)) n
  = Z.testbit v n.
Proof.
  intros Hn Hn'. unfold unpack, sextet.
  rewrite !Z.lor_spec, !Z.shiftl_spec by done.
  destruct (Z.ltb_spec n 6).
  { rewrite (Z.testbit_neg_r _ (n - 18)), (Z.testbit_neg_r _ (n - 12)),
      (Z.testbit_neg_r _ (n - 6)) by lia.
    rewrite testbit_sextet by lia. cbn [orb]. rewrite Z.add_0_r.
    destruct (Z.ltb_spec n 6); [by rewrite andb_true_r|lia]. }
  destruct (Z.ltb_spec n 12).
  { rewrite (Z.testbit_neg_r _ (n - 18)), (Z.testbit_neg_r _ (n - 12)) by lia.
    rewrite !testbit_sextet by lia. cbn [orb].
    replace (n - 6 + 6) with n by lia.
    destruct (Z.ltb_spec (n - 6) 6); [|lia]. destruct (Z.ltb_spec n 6); [lia|].
    by rewrite andb_true_r, andb_false_r, orb_false_r. }
  destruct (Z.ltb_spec n 18).
  { rewrite (Z.testbit_neg_r _ (n - 18)) by lia.
    rewrite !testbit_sextet by lia. cbn [orb].
    replace (n - 12 + 12) with n by lia.
    destruct (Z.ltb_spec (n - 12) 6); [|lia]. destruct (Z.ltb_spec (n - 6) 6); [lia|].
    destruct (Z.ltb_spec n 6); [lia|].
    by rewrite andb_true_r, !andb_false_r, !orb_false_r. }
  rewrite !testbit_sextet by lia.
  replace (n - 18 + 18) with n by lia.
  destruct (Z.ltb_spec (n - 18) 6); [|lia]. destruct (Z.ltb_spec (n - 12) 6); [lia|].
  destruct (Z.ltb_spec (n - 6) 6); [lia|]. destruct (Z.ltb_spec n 6); [lia|].
  by rewrite andb_true_r, !andb_false_r, !orb_false_r.
Qed.

Lemma testbit_unpack3 v n :
  6 ≤ n → n < 24 →
  Z.testbit (unpack (sextet v 18) (sextet v 12) (sextet v 6) 0) n = Z.testbit v n.
Proof.
  intros Hn Hn'. rewrite <- (testbit_unpack4 v n) by lia. unfold unpack.
  rewrite !(Z.lor_spec _ (sextet v 0)), Z.lor_spec, Z.bits_0.
  unfold sextet at 7. rewrite testbit_sextet by lia.
  destruct (Z.ltb_spec n 6); [lia|]. by rewrite andb_false_r.
Qed.

Lemma testbit_unpack2 v n :
  12 ≤ n → n < 24 →
  Z.testbit (unpack (sextet v 18) (sextet v 12) 0 0) n = Z.testbit v n.
Proof.
  intros Hn Hn'. rewrite <- (testbit_unpack3 v n) by lia. unfold unpack.
  rewrite !(Z.lor_spec _ 0), !(Z.lor_spec _ (Z.shiftl _ 6)), !Z.shiftl_spec by lia.
  rewrite Z.bits_0. unfold sextet at 5. rewrite testbit_sextet by lia.
  destruct (Z.ltb_spec (n - 6) 6); [lia|]. by rewrite andb_false_r.
Qed.

(** The byte at bit [k] of a value that agrees with the packed bytes there. *)
Lemma byte_of_bits x v k c :
  0 ≤ k →
  (∀ n, 0 ≤ n < 8 → Z.testbit x (n + k) = Z.testbit v (n + k)) →
  (∀ n, 0 ≤ n < 8 → Z.testbit v (n + k) = Z.testbit (base64.b c) n) →
  base64.byte_of (Z.shiftr x k) = c.
Proof.
  intros Hk Hx Hv. unfold base64.byte_of.
  replace (Z.land (Z.shiftr x k) 255) with (base64.b c).
  - unfold base64.b. by rewrite N2Z.id, ascii_N_embedding.
  - apply Z.bits_inj'. intros n Hn.
    rewrite Z.land_spec, Z.shiftr_spec, testbit_255 by done.
    destruct (Z.ltb_spec n 8).
    + by rewrite andb_true_r, Hx, Hv.
    + by rewrite andb_false_r, testbit_b_high.
Qed.

Lemma land_63_range x : 0 ≤ Z.land x 63 < 64.
Proof.
  change 63 with (Z.ones 6). rewrite Z.land_ones by lia.
  apply Z.mod_pos_bound. lia.
Qed.

Lemma decodeMap_alphabet (n : nat) :
  (n < 64)%nat →
  base64.decodeMap
    (match String.get n base64.encodeStd with
     | Some c => c
     | None => base64.padChar
     end) = Z.of_nat n.
Proof.
  intros Hn. do 64 (destruct n as [|n]; [reflexivity|]). lia.
Qed.

(** The decoder reads back the sextet the encoder wrote. *)
Lemma decodeMap_sextet_char x :
  base64.decodeMap (base64.sextet_char x) = Z.land x 63.
Proof.
  unfold base64.sextet_char. pose proof (land_63_range x) as Hx.
  rewrite decodeMap_alphabet by lia. lia.
Qed.

Lemma sextet_char_valid x :
  negb (base64.decodeMap (base64.sextet_char x) =? 255) = true.
Proof.
  rewrite decodeMap_sextet_char. pose proof (land_63_range x).
  apply negb_true_iff, Z.eqb_neq. lia.
Qed.

Lemma quantum_bytes_4 c0 c1 c2 :
  let v := pack c0 c1 c2 in
  base64.quantum_bytes [sextet v 18; sextet v 12; sextet v 6; sextet v 0] 4
  = String c0 (String c1 (String c2 EmptyString)).
Proof.
  intros v. unfold base64.quantum_bytes. cbn [nth Nat.sub firstn string_of_list_ascii].
  fold (unpack (sextet v 18) (sextet v 12) (sextet v 6) (sextet v 0)).
  set (x := unpack _ _ _ _).
  assert (Hx : ∀ k n, 0 ≤ k → 0 ≤ n < 8 → k ≤ 16 →
            Z.testbit x (n + k) = Z.testbit v (n + k)).
  { intros k n Hk Hn Hk'. subst x. apply testbit_unpack4; lia. }
  assert (H16 : base64.byte_of (Z.shiftr x 16) = c0).
  { apply (byte_of_bits x v 16 c0); [lia| |].
    - intros n Hn. apply Hx; lia.
    - intros n Hn. subst v. apply testbit_pack_16; lia. }
  assert (H8 : base64.byte_of (Z.shiftr x 8) = c1).
  { apply (byte_of_bits x v 8 c1); [lia| |].
    - intros n Hn. apply Hx; lia.
    - intros n Hn. subst v. apply testbit_pack_8; lia. }
  assert (H0 : base64.byte_of (Z.shiftr x 0) = c2).
  { apply (byte_of_bits x v 0 c2); [lia| |].
    - intros n Hn. apply Hx; lia.
    - intros n Hn. subst v. apply testbit_pack_0; lia. }
  rewrite Z.shiftr_0_r in H0. by rewrite H16, H8, H0.
Qed.

Lemma quantum_bytes_3 c0 c1 :
  let v := pack c0 c1 "000" in
  base64.quantum_bytes [sextet v 18; sextet v 12; sextet v 6] 3
  = String c0 (String c1 EmptyString).
Proof.
  intros v. unfold base64.quantum_bytes. cbn [nth Nat.sub firstn string_of_list_ascii].
  fold (unpack (sextet v 18) (sextet v 12) (sextet v 6) 0).
  set (x := unpack _ _ _ _).
  assert (Hx : ∀ k n, 8 ≤ k → 0 ≤ n < 8 → k ≤ 16 →
            Z.testbit x (n + k) = Z.testbit v (n + k)).
  { intros k n Hk Hn Hk'. subst x. apply testbit_unpack3; lia. }
  assert (H16 : base64.byte_of (Z.shiftr x 16) = c0).
  { apply (byte_of_bits x v 16 c0); [lia| |].
    - intros n Hn. apply Hx; lia.
    - intros n Hn. subst v. apply testbit_pack_16; lia. }
  assert (H8 : base64.byte_of (Z.shiftr x 8) = c1).
  { apply (byte_of_bits x v 8 c1); [lia| |].
    - intros n Hn. apply Hx; lia.
    - intros n Hn. subst v. apply testbit_pack_8; lia. }
  by rewrite H16, H8.
Qed.

Lemma quantum_bytes_2 c0 :
  let v := pack c0 "000" "000" in
  base64.quantum_bytes [sextet v 18; sextet v 12] 2 = String c0 EmptyString.
Proof.
  intros v. unfold base64.quantum_bytes. cbn [nth Nat.sub firstn string_of_list_ascii].
  fold (unpack (sextet v 18) (sextet v 12) 0 0).
  set (x := unpack _ _ _ _).
  assert (H16 : base64.byte_of (Z.shiftr x 16) = c0).
  { apply (byte_of_bits x v 16 c0); [lia| |].
    - intros n Hn. subst x. apply testbit_unpack2; lia.
    - intros n Hn. subst v. apply testbit_pack_16; lia. }
  by rewrite H16.
Qed.

(** One byte of the alphabet read by the decoder. *)
Lemma decode_sextet_char x rest dbuf :
  base64.decode (String (base64.sextet_char x) rest) dbuf
  = if (length (dbuf ++ [Z.land x 63]) =? 4)%nat
    then String.append (base64.quantum_bytes (dbuf ++ [Z.land x 63]) 4)
           <$> base64.decode rest []
    else base64.decode rest (dbuf ++ [Z.land x 63]).
Proof.
  cbn [base64.decode]. cbv zeta.
  by rewrite sextet_char_valid, decodeMap_sextet_char.
Qed.

Lemma pack_1 c0 :
  Z.shiftl (base64.b c0) 16 = pack c0 "000" "000".
Proof.
  unfold pack. change (base64.b "000") with 0.
  by rewrite Z.shiftl_0_l, !Z.lor_0_r.
Qed.

Lemma pack_2 c0 c1 :
  Z.lor (Z.shiftl (base64.b c0) 16) (Z.shiftl (base64.b c1) 8) = pack c0 c1 "000".
Proof. unfold pack. change (base64.b "000") with 0. by rewrite Z.lor_0_r. Qed.

Lemma decode_encode_bounded (n : nat) (l : list ascii) :
  (length l <= n)%nat →
  base64.decode (string_of_list_ascii (base64.encode l)) []
  = Some (string_of_list_ascii l).
Proof.
  revert l. induction n as [|n IH]; intros l Hlen.
  { destruct l; [done|]. cbn [length] in Hlen. lia. }
  destruct l as [|c0 [|c1 [|c2 rest]]].
  - done.
  - cbn [base64.encode string_of_list_ascii]. rewrite pack_1.
    rewrite !decode_sextet_char. cbn [app length Nat.eqb].
    fold (sextet (pack c0 "000" "000") 18) (sextet (pack c0 "000" "000") 12).
    change (base64.decode (String base64.padChar (String base64.padChar EmptyString))
              [sextet (pack c0 "000" "000") 18; sextet (pack c0 "000" "000") 12])
      with (Some (base64.quantum_bytes
              [sextet (pack c0 "000" "000") 18; sextet (pack c0 "000" "000") 12] 2)).
    by rewrite quantum_bytes_2.
  - cbn [base64.encode string_of_list_ascii]. rewrite pack_2.
    rewrite !decode_sextet_char. cbn [app length Nat.eqb].
    fold (sextet (pack c0 c1 "000") 18) (sextet (pack c0 c1 "000") 12)
         (sextet (pack c0 c1 "000") 6).
    change (base64.decode (String base64.padChar EmptyString)
              [sextet (pack c0 c1 "000") 18; sextet (pack c0 c1 "000") 12;
               sextet (pack c0 c1 "000") 6])
      with (Some (base64.quantum_bytes
              [sextet (pack c0 c1 "000") 18; sextet (pack c0 c1 "000") 12;
               sextet (pack c0 c1 "000") 6] 3)).
    by rewrite quantum_bytes_3.
  - cbn [base64.encode string_of_list_ascii]. fold (pack c0 c1 c2).
    rewrite !decode_sextet_char. cbn [app length Nat.eqb].
    rewrite <- (Z.shiftr_0_r (pack c0 c1 c2)) at 4.
    fold (sextet (pack c0 c1 c2) 18) (sextet (pack c0 c1 c2) 12)
         (sextet (pack c0 c1 c2) 6) (sextet (pack c0 c1 c2) 0).
    rewrite quantum_bytes_4, IH by (cbn [length] in Hlen; lia).
    done.
Qed.

Lemma DecodeString_EncodeToString s :
  base64.DecodeString (base64.EncodeToString s) = Some s.
Proof.
  unfold base64.DecodeString, base64.EncodeToString.
  rewrite (decode_encode_bounded (length (list_ascii_of_string s))) by done.
  by rewrite string_of_list_ascii_of_string.
Qed.
End Base64RoundTrip.

(** ** Credentials built by [CreateBasicAuth] *)

Lemma append_inj_l (p s t : string) : p +:+ s = p +:+ t → s = t.
Proof.
  intros Heq. rewrite <- (slice_from_app p s), <- (slice_from_app p t).
  by rewrite Heq.
Qed.

(** A payload has one cut at its first colon. *)
Lemma splits_at_first_colon_unique payload u p u' p' :
  splits_at_first_colon payload u p → splits_at_first_colon payload u' p' →
  u = u' ∧ p = p'.
Proof.
  intros [-> Hu] [Heq Hu'].
  pose proof (SplitN_first_colon u p Hu) as H1.
  rewrite Heq, (SplitN_first_colon u' p' Hu') in H1. by injection H1 as -> ->.
Qed.

Lemma base64Encode_inj s t : base64Encode s = base64Encode t → s = t.
Proof.
  intros Heq. apply (f_equal base64.DecodeString) in Heq.
  unfold base64Encode in Heq. rewrite !DecodeString_EncodeToString in Heq.
  by injection Heq.
Qed.

(** X1.  [base64Encode] and the decoder [authenticateRequest] calls are a
    round trip: what [base64Encode] makes of a string decodes to that string,
    whatever its bytes and its length; so two strings with the same encoding
    are equal. *)
Theorem base64Encode_round_trip (s : string) :
  base64.DecodeString (base64Encode s) = Some s
  ∧ (∀ t, base64Encode s = base64Encode t → s = t).
Proof.
  split; [apply DecodeString_EncodeToString|]. intros t. apply base64Encode_inj.
Qed.

Lemma CreateBasicAuth_payload ps r0 u p :
  credential r0 = CreateBasicAuth u p →
  authenticateRequest ps r0 = true
  ↔ splits_at_first_colon (u +:+ ":" +:+ p) (username ps) (password ps).
Proof.
  intros Hcred. rewrite authenticate_true_iff. split.
  - intros (enc & payload & Henc & Hdec & Hsplit).
    rewrite Hcred in Henc. unfold CreateBasicAuth in Henc.
    apply append_inj_l in Henc as <-.
    rewrite DecodeString_EncodeToString in Hdec. by injection Hdec as <-.
  - intros Hsplit. eexists _, _. split; [exact Hcred|].
    split; [apply DecodeString_EncodeToString|done].
Qed.

Lemma colon_free_pair u p u' p' :
  ¬ has_colon u →
  splits_at_first_colon (u +:+ ":" +:+ p) u' p' ↔ u = u' ∧ p = p'.
Proof.
  intros Hu. split.
  - intros Hsplit. by apply (splits_at_first_colon_unique (u +:+ ":" +:+ p)).
  - by intros [<- <-].
Qed.

(** X2.  A request whose credential header is [CreateBasicAuth u p] is
    accepted exactly when [u], a colon and [p], cut at the first colon, are
    the configured user name and password.  When [u] has no colon that is:
    [u] and [p] are the configured pair.  When [u] is [a], a colon and [b],
    with no colon in [a], it is: [a] is the configured user name and [b], a
    colon and [p] the configured password. *)
Theorem CreateBasicAuth_accepted (ps : ProxyServer) (r0 : http.Request)
    (u p : string) :
  credential r0 = CreateBasicAuth u p →
  (authenticateRequest ps r0 = true
   ↔ splits_at_first_colon (u +:+ ":" +:+ p) (username ps) (password ps))
  ∧ (¬ has_colon u →
       (authenticateRequest ps r0 = true ↔ u = username ps ∧ p = password ps))
  ∧ (∀ a b, u = a +:+ ":" +:+ b → ¬ has_colon a →
       (authenticateRequest ps r0 = true
        ↔ a = username ps ∧ b +:+ ":" +:+ p = password ps)).
Proof.
  intros Hcred. split; [by apply CreateBasicAuth_payload|]. split.
  - intros Hu. rewrite (CreateBasicAuth_payload ps r0 u p Hcred).
    by apply colon_free_pair.
  - intros a b -> Ha. rewrite (CreateBasicAuth_payload ps r0 _ p Hcred).
    rewrite !append_assoc. by apply colon_free_pair.
Qed.

Lemma no_colon_admin : ¬ has_colon "admin".
Proof.
  intros Hin. unfold has_colon in Hin. cbn in Hin.
  repeat (apply elem_of_cons in Hin as [Hin|Hin]; [discriminate|]).
  by apply elem_of_nil in Hin.
Qed.

Lemma CreateBasicAuth_accepted_witness :
  authenticateRequest proxy0 get0 = true
  ↔ "admin" = username proxy0 ∧ "password123" = password proxy0.
Proof.
  exact (proj1 (proj2 (CreateBasicAuth_accepted proxy0 get0 "admin" "password123"
                         eq_refl)) no_colon_admin).
Defined.

(** X3.  A server whose configured user name has a colon accepts no request
    at all: [authenticateRequest] is false for every request, and [ServeHTTP]
    logs the request line and answers with the challenge and the status
    407. *)
Theorem colon_in_username_locks_out (ps : ProxyServer) (env : Env)
    (hj : option bool) (r0 : http.Request) :
  has_colon (username ps) →
  authenticateRequest ps r0 = false
  ∧ ServeHTTP ps env (inbound hj r0)
    = Ret None {| w := responded hj http.StatusProxyAuthRequired reject_header
                         reject_body;
                  r := r0; defers := [];
                  trace := [EvLog (request_line r0);
                            EvStatus http.StatusProxyAuthRequired reject_header;
                            EvBody reject_body] |}
  ∧ http.StatusProxyAuthRequired = 407.
Proof.
  intros Hcolon.
  assert (Hauth : authenticateRequest ps r0 = false).
  { destruct (authenticateRequest ps r0) eqn:Hauth; [|done].
    apply authenticate_true_iff in Hauth as (enc & payload & _ & _ & _ & Hno).
    done. }
  split; [done|]. split; [by apply ServeHTTP_rejects|done].
Qed.

Lemma has_colon_a_b : has_colon "a:b".
Proof. vm_compute. right. left. Qed.

Lemma colon_in_username_locks_out_witness :
  authenticateRequest (NewProxyServer "a:b" "c" "8080")
    (request0 "GET" "http://example.com/" "example.com" (CreateBasicAuth "a:b" "c"))
  = false.
Proof.
  exact (proj1 (colon_in_username_locks_out (NewProxyServer "a:b" "c" "8080") env_up
                  None
                  (request0 "GET" "http://example.com/" "example.com"
                     (CreateBasicAuth "a:b" "c"))
                  has_colon_a_b)).
Defined.

Lemma credential_Set (h : http.MIMEHeader) q v :
  credential (with_Header q (http.Set_ h "Proxy-Authorization" v)) = v.
Proof.
  unfold credential, http.Get, http.Set_, http.values. cbn [with_Header http.Header].
  by rewrite lookup_insert_eq.
Qed.

(** X4.  The requests of a [TestHelper].  [CreateAuthenticatedRequest] sets
    the credential header to [Basic ] and the encoding of the helper's pair,
    and leaves every other name of the header map as it is; the handler of
    the helper, which is its proxy, with the pair of the helper and the port
    8080, accepts the request exactly when the user name of the helper has no
    colon.  The proxy rejects the request of [CreateUnauthenticatedRequest],
    which has no credential header. *)
Theorem TestHelper_requests (u p backendURL : string) (req : http.Request) :
  let th := NewTestHelper u p backendURL in
  let authenticated := CreateAuthenticatedRequest th req in
  credential authenticated = "Basic " +:+ base64Encode (u +:+ ":" +:+ p)
  ∧ th_ProxyHandler th = th_ProxyServer th
  ∧ username (th_ProxyServer th) = u
  ∧ password (th_ProxyServer th) = p
  ∧ port (th_ProxyServer th) = "8080"
  ∧ th_BackendServer th = backendURL
  ∧ (authenticateRequest (th_ProxyHandler th) authenticated = true ↔ ¬ has_colon u)
  ∧ (∀ k, k ≠ "Proxy-Authorization" →
          http.Header authenticated !! k = http.Header req !! k)
  ∧ (http.Header req !! "Proxy-Authorization" = None →
       authenticateRequest (th_ProxyServer th) (CreateUnauthenticatedRequest th req)
       = false).
Proof.
  intros th authenticated.
  assert (Hcred : credential authenticated = CreateBasicAuth u p).
  { subst authenticated. unfold CreateAuthenticatedRequest. by rewrite credential_Set. }
  do 6 (split; [done|]). split; [|split].
  - rewrite (CreateBasicAuth_payload _ _ u p Hcred).
    unfold splits_at_first_colon. subst th.
    cbn [NewTestHelper th_ProxyServer NewProxyServer username password]. intuition.
  - intros k Hk. subst authenticated.
    unfold CreateAuthenticatedRequest, http.Set_. cbn [with_Header http.Header].
    by rewrite canonical_proxy_authorization, lookup_insert_ne.
  - intros Hnone. unfold CreateUnauthenticatedRequest.
    rewrite authenticate_unfold, (credential_absent req Hnone). done.
Qed.

(** ** Every path through the two handlers *)

Ltac handleHTTP_paths ps env hj r0 :=
  let Hauth := fresh "Hauth" in
  let Hq := fresh "Hq" in
  let Hdo := fresh "Hdo" in
  let Hcode := fresh "Hcode" in
  let q := fresh "q" in
  let resp := fresh "resp" in
  destruct (authenticateRequest ps r0) eqn:Hauth;
  [ destruct (proxy_request env r0) as [q|] eqn:Hq;
    [ destruct (client_Do env (30 * Second) q) as [resp|] eqn:Hdo;
      [ destruct (http.validWriteHeaderCode (http.StatusCode resp)) eqn:Hcode;
        [ rewrite ?(handleHTTP_relays ps env hj r0 q resp Hauth Hq Hdo Hcode)
        | rewrite ?(handleHTTP_invalid_status ps env hj r0 q resp Hauth Hq Hdo Hcode) ]
      | rewrite ?(handleHTTP_unreachable ps env hj r0 q Hauth Hq Hdo) ]
    | rewrite ?(handleHTTP_construction_fails ps env hj r0 Hauth Hq) ]
  | rewrite ?(handleHTTP_rejects ps env hj r0 Hauth) ].

Ltac handleHTTPS_paths ps env hj r0 :=
  let Hauth := fresh "Hauth" in
  let Hdial := fresh "Hdial" in
  destruct (authenticateRequest ps r0) eqn:Hauth;
  [ destruct (net_DialTimeout env "tcp" (http.Host r0) (30 * Second)) eqn:Hdial;
    [ destruct hj as [[|]|];
      [ rewrite ?(handleHTTPS_tunnels ps env r0 Hauth Hdial)
      | rewrite ?(handleHTTPS_hijack_fails ps env r0 Hauth Hdial)
      | rewrite ?(handleHTTPS_not_hijacker ps env r0 Hauth Hdial) ]
    | rewrite ?(handleHTTPS_dial_fails ps env hj r0 Hauth Hdial) ]
  | rewrite ?(handleHTTPS_rejects ps env hj r0 Hauth) ].

Lemma closes_of_app tr1 tr2 : closes_of (tr1 ++ tr2) = closes_of tr1 ++ closes_of tr2.
Proof. apply omap_app. Qed.

Lemma closes_of_bodies cs : closes_of (map EvBody cs) = [].
Proof. by induction cs. Qed.

Lemma closes_of_copy_log e : closes_of (copy_log e) = [].
Proof. by destruct e. Qed.

Lemma NewRequest_fails env method url body :
  NewRequest env method url body = None
  ↔ (method ≠ EmptyString ∧ http.validMethod method = false)
    ∨ url_Parse env url = None.
Proof.
  unfold NewRequest. destruct (String.eqb_spec method "") as [->|Hm].
  - change (negb (http.validMethod "GET")) with false. cbv iota.
    destruct (url_Parse env url); intuition congruence.
  - destruct (http.validMethod method); cbn [negb].
    + destruct (url_Parse env url); intuition congruence.
    + intuition congruence.
Qed.

Lemma proxy_request_fails env r0 :
  proxy_request env r0 = None
  ↔ (http.Method r0 ≠ EmptyString ∧ http.validMethod (http.Method r0) = false)
    ∨ url_Parse env (http.URL r0) = None.
Proof.
  rewrite <- NewRequest_fails with (body := http.Body r0). unfold proxy_request.
  by destruct (NewRequest env (http.Method r0) (http.URL r0) (http.Body r0)).
Qed.

Lemma reaches_out_bodies cs : Forall (λ e, reaches_out e = false) (map EvBody cs).
Proof. induction cs; by constructor. Qed.

(** X5.  When [http.NewRequest] fails for an authenticated request, because
    its method is not empty and is no token or because its URL does not
    parse, [handleHTTP] answers with the status 500 and the text
    [Error creating proxy request] and returns; it reaches out to nothing
    and leaves nothing deferred. *)
Theorem request_construction_failure (ps : ProxyServer) (env : Env)
    (hj : option bool) (r0 : http.Request) :
  authenticateRequest ps r0 = true →
  (http.Method r0 ≠ EmptyString ∧ http.validMethod (http.Method r0) = false)
  ∨ url_Parse env (http.URL r0) = None →
  let res := handleHTTP ps env (inbound hj r0) in
  returned res = Some tt
  ∧ response (final res)
    = (http.StatusInternalServerError, error_header ∅,
       "Error creating proxy request" +:+ newline)
  ∧ http.StatusInternalServerError = 500
  ∧ trace (final res)
    = [EvStatus http.StatusInternalServerError (error_header ∅);
       EvBody ("Error creating proxy request" +:+ newline)]
  ∧ Forall (λ e, reaches_out e = false) (trace (final res))
  ∧ defers (final res) = [].
Proof.
  intros Hauth Hbad%proxy_request_fails res. subst res.
  rewrite (handleHTTP_construction_fails ps env hj r0 Hauth Hbad).
  cbn [returned final response w r defers trace responded http.Code
       http.sentHeader http.written].
  repeat split. by repeat constructor.
Qed.

Lemma authenticate_bad_method0 : authenticateRequest proxy0 bad_method0 = true.
Proof. vm_compute. reflexivity. Qed.

Lemma bad_method0_no_token :
  http.Method bad_method0 ≠ EmptyString
  ∧ http.validMethod (http.Method bad_method0) = false.
Proof. split; [discriminate|reflexivity]. Qed.

Lemma request_construction_failure_witness :
  response (final (handleHTTP proxy0 env_up (inbound None bad_method0)))
  = (500, error_header ∅, "Error creating proxy request" +:+ newline).
Proof.
  exact (proj1 (proj2 (request_construction_failure proxy0 env_up None bad_method0
                         authenticate_bad_method0 (or_introl bad_method0_no_token)))).
Defined.

(** X6.  [handleHTTP] panics exactly when it got an upstream response whose
    status code is outside 100..999, in [w.WriteHeader]; then nothing went to
    the client, neither a header nor body bytes, and the body of the upstream
    response was closed by the deferred call.  [handleHTTPS] does not
    panic. *)
Theorem handlers_panic_iff (ps : ProxyServer) (env : Env)
    (hj : option bool) (r0 : http.Request) :
  let res := handleHTTP ps env (inbound hj r0) in
  (returned res = None
   ↔ ∃ resp, upstream_response ps env r0 = Some resp
             ∧ http.validWriteHeaderCode (http.StatusCode resp) = false)
  ∧ (returned res = None →
       http.wroteHeader (w (final res)) = false
       ∧ http.written (w (final res)) = EmptyString
       ∧ ∃ q, proxy_request env r0 = Some q
              ∧ trace (final res) = [EvDo (30 * Second) q; EvClose CloseRespBody])
  ∧ returned (handleHTTPS ps env (inbound hj r0)) ≠ None.
Proof.
  intros res. subst res. unfold upstream_response. split; [|split].
  - handleHTTP_paths ps env hj r0; cbn [returned mbind option_bind];
      rewrite ?Hdo; try (split; [done|by intros (? & ? & ?)]).
    + split; [done|]. intros (resp' & [= <-] & Hbad). congruence.
    + split; [|done]. intros _. by exists resp.
  - handleHTTP_paths ps env hj r0; cbn [returned]; try done.
    intros _. cbn [final w trace http.wroteHeader http.written].
    split; [done|]. split; [done|]. by exists q.
  - handleHTTPS_paths ps env hj r0; by cbn [returned].
Qed.

Lemma upstream_response_099 :
  upstream_response proxy0 env_099 get0 = Some response_099.
Proof. vm_compute. reflexivity. Qed.

(** A target that answers with the status code 099. *)
Lemma handlers_panic_iff_witness :
  returned (handleHTTP proxy0 env_099 (inbound None get0)) = None.
Proof.
  apply (proj2 (proj1 (handlers_panic_iff proxy0 env_099 None get0))).
  exists response_099. split; [exact upstream_response_099|reflexivity].
Defined.

(** X7.  The deferred [Close] calls.  When [handleHTTP] is done nothing is
    left deferred, and it has closed the body of the upstream response, once
    and as its last step, exactly when it got a response.  When [handleHTTPS]
    returns without a session nothing is left deferred, and it has closed the
    connection to the target, once, exactly when the dial succeeded; the
    client connection it has not closed.  When a session starts nothing is
    closed yet, and each unit has the two [Close] calls after its copy, the
    one of the client connection first. *)
Theorem deferred_closes (ps : ProxyServer) (env : Env)
    (hj : option bool) (r0 : http.Request) :
  let plain := final (handleHTTP ps env (inbound hj r0)) in
  let res := handleHTTPS ps env (inbound hj r0) in
  defers plain = []
  ∧ closes_of (trace plain)
    = match upstream_response ps env r0 with
      | Some _ => [CloseRespBody]
      | None => []
      end
  ∧ (is_Some (upstream_response ps env r0) →
       ∃ tr, trace plain = tr ++ [EvClose CloseRespBody])
  ∧ (returned res = Some None →
       defers (final res) = []
       ∧ closes_of (trace (final res))
         = (if dialled ps env r0 then [CloseConn destConn] else []))
  ∧ (∀ t, returned res = Some (Some t) →
       closes_of (trace (final res)) = []
       ∧ defers (final res) = [CloseConn clientConn; CloseConn destConn]
       ∧ handler t = ICopy clientConn destConn
                     :: [IClose (CloseConn clientConn); IClose (CloseConn destConn)]
       ∧ goroutine t = ICopy destConn clientConn
                       :: [IClose (CloseConn clientConn); IClose (CloseConn destConn)]).
Proof.
  intros plain res. subst plain res. unfold upstream_response, dialled.
  split; [|split; [|split; [|split]]].
  - handleHTTP_paths ps env hj r0; done.
  - handleHTTP_paths ps env hj r0; cbn [final trace mbind option_bind];
      rewrite ?Hdo; try done.
    rewrite !closes_of_app, closes_of_bodies, closes_of_copy_log. done.
  - handleHTTP_paths ps env hj r0; cbn [final trace mbind option_bind];
      rewrite ?Hdo; try (by intros [? [=]]); intros _.
    + eexists. rewrite !app_assoc. reflexivity.
    + by exists [EvDo (30 * Second) q].
  - handleHTTPS_paths ps env hj r0; cbn [returned final defers trace andb]; done.
  - intros t. handleHTTPS_paths ps env hj r0; cbn [returned final defers trace]; try done.
    by intros [= <-].
Qed.

Lemma Get_deleted (h : http.MIMEHeader) k :
  http.Get (delete (textproto.CanonicalMIMEHeaderKey k) h) k = EmptyString.
Proof. unfold http.Get, http.values. by rewrite lookup_delete_eq. Qed.

Lemma Get_stripped (h : http.MIMEHeader) k :
  textproto.CanonicalMIMEHeaderKey k = "Proxy-Authorization"
  ∨ textproto.CanonicalMIMEHeaderKey k = "Proxy-Connection" →
  http.Get (stripped h) k = EmptyString.
Proof.
  intros Hk. rewrite stripped_delete. unfold http.Get, http.values.
  destruct Hk as [-> | ->].
  - by rewrite lookup_delete_ne, lookup_delete_eq.
  - by rewrite lookup_delete_eq.
Qed.

(** X8.  What the handlers leave of the fields of the inbound request they
    were given by reference, the body apart.  [handleHTTPS] changes neither
    the method, the URL, the host, the remote address nor the header map.
    [handleHTTP] changes none of the first four; it leaves the header map of
    a rejected request as it was and deletes the two proxy headers from the
    one of an accepted request: [Get] finds them empty under any spelling,
    and every other name is as before.  The request [handleHTTP] leaves is
    not accepted a second time. *)
Theorem inbound_request_after (ps : ProxyServer) (env : Env)
    (hj : option bool) (r0 : http.Request) :
  let plain := r (final (handleHTTP ps env (inbound hj r0))) in
  let tunnel := r (final (handleHTTPS ps env (inbound hj r0))) in
  http.Method tunnel = http.Method r0
  ∧ http.URL tunnel = http.URL r0
  ∧ http.Host tunnel = http.Host r0
  ∧ http.RemoteAddr tunnel = http.RemoteAddr r0
  ∧ http.Header tunnel = http.Header r0
  ∧ http.Method plain = http.Method r0
  ∧ http.URL plain = http.URL r0
  ∧ http.Host plain = http.Host r0
  ∧ http.RemoteAddr plain = http.RemoteAddr r0
  ∧ http.Header plain
    = (if authenticateRequest ps r0
       then stripped (http.Header r0) else http.Header r0)
  ∧ (authenticateRequest ps r0 = true →
       ∀ k, textproto.CanonicalMIMEHeaderKey k = "Proxy-Authorization"
            ∨ textproto.CanonicalMIMEHeaderKey k = "Proxy-Connection" →
            http.Get (http.Header plain) k = EmptyString)
  ∧ (∀ k, k ≠ "Proxy-Authorization" → k ≠ "Proxy-Connection" →
          http.Header plain !! k = http.Header r0 !! k)
  ∧ authenticateRequest ps plain = false.
Proof.
  intros plain tunnel.
  assert (Htunnel : tunnel = r0).
  { subst tunnel. handleHTTPS_paths ps env hj r0; done. }
  assert (Hplain : plain = (if authenticateRequest ps r0
                            then with_Header r0 (stripped (http.Header r0)) else r0)).
  { subst plain. handleHTTP_paths ps env hj r0; done. }
  clearbody plain tunnel. subst plain tunnel.
  do 5 (split; [done|]).
  destruct (authenticateRequest ps r0) eqn:Hauth;
    cbn [with_Header http.Method http.URL http.Host http.RemoteAddr http.Header];
    repeat split; try done.
  - intros _ k Hk. by apply Get_stripped.
  - intros k Hk1 Hk2. by rewrite stripped_delete, !lookup_delete_ne.
  - rewrite authenticate_unfold. unfold credential. cbn [with_Header http.Header].
    rewrite Get_stripped; [done|]. by left.
Qed.

(** X9.  The outcome of [handleHTTPS] on any request.  A session starts
    exactly when the request is authenticated, the dial succeeds and the
    takeover succeeds; otherwise the handler returns.  The status code is 407
    for a request that is not authenticated, 502 when the dial fails and 200
    when it succeeds, whatever comes of the takeover.  The goroutine is
    started exactly when a session starts.  A dial is made exactly for an
    authenticated request: over tcp, to the host of the request, with a
    timeout of 30 seconds. *)
Theorem session_starts_iff (ps : ProxyServer) (env : Env)
    (hj : option bool) (r0 : http.Request) :
  let res := handleHTTPS ps env (inbound hj r0) in
  (∀ t, returned res = Some (Some t)
        ↔ dialled ps env r0 = true ∧ hj = Some true
          ∧ t = tunnel_start [CloseConn clientConn; CloseConn destConn])
  ∧ (returned res = Some None ↔ dialled ps env r0 = false ∨ hj ≠ Some true)
  ∧ http.Code (w (final res))
    = (if authenticateRequest ps r0
       then if net_DialTimeout env "tcp" (http.Host r0) (30 * Second)
            then 200 else 502
       else 407)
  ∧ (EvGo ∈ trace (final res) ↔ dialled ps env r0 = true ∧ hj = Some true)
  ∧ (∀ network addr timeout,
       EvDial network addr timeout ∈ trace (final res)
       ↔ authenticateRequest ps r0 = true
         ∧ network = "tcp" ∧ addr = http.Host r0 ∧ timeout = 30 * Second).
Proof.
  intros res. subst res. unfold dialled.
  split; [|split; [|split; [|split]]].
  - intros t. handleHTTPS_paths ps env hj r0;
      cbn [returned final trace w http.Code andb responded]; try (intuition congruence).
  - handleHTTPS_paths ps env hj r0;
      cbn [returned final trace w http.Code andb responded]; try (intuition congruence).
  - handleHTTPS_paths ps env hj r0; done.
  - handleHTTPS_paths ps env hj r0;
      cbn [returned final trace w http.Code andb responded];
      rewrite ?elem_of_cons, ?elem_of_nil; intuition congruence.
  - intros network addr timeout. handleHTTPS_paths ps env hj r0;
      cbn [returned final trace w http.Code andb responded];
      rewrite ?elem_of_cons, ?elem_of_nil; intuition congruence.
Qed.

Lemma response_order_bodies cs rest :
  response_order true (map EvBody cs ++ rest) = response_order true rest.
Proof. induction cs as [|c cs IH]; [done|]. cbn. exact IH. Qed.

(** X10.  What goes to the client is in the order of a response on every
    path of both handlers: no body bytes before the status, no second
    status.  One status goes out whenever [handleHTTP] returns, and on every
    path of [handleHTTPS]. *)
Theorem response_in_order (ps : ProxyServer) (env : Env)
    (hj : option bool) (r0 : http.Request) :
  response_order false (trace (final (handleHTTP ps env (inbound hj r0)))) = true
  ∧ response_order false (trace (final (handleHTTPS ps env (inbound hj r0)))) = true
  ∧ (returned (handleHTTP ps env (inbound hj r0)) = Some tt →
     length (filter (λ e, is_status e = true)
               (trace (final (handleHTTP ps env (inbound hj r0))))) = 1%nat)
  ∧ length (filter (λ e, is_status e = true)
              (trace (final (handleHTTPS ps env (inbound hj r0))))) = 1%nat.
Proof.
  split; [|split; [|split]].
  - handleHTTP_paths ps env hj r0; cbn [final trace]; try done.
    cbn [app response_order negb andb]. rewrite response_order_bodies.
    by destruct (http.failure (http.RespBody resp)).
  - handleHTTPS_paths ps env hj r0; done.
  - handleHTTP_paths ps env hj r0; cbn [final trace returned]; try done.
    intros _. cbn [app]. rewrite filter_cons_False, filter_cons_True by done.
    rewrite !filter_app. cbn [length]. f_equal.
    rewrite !length_app.
    assert (Hb : ∀ cs, filter (λ e, is_status e = true) (map EvBody cs) = []).
    { intros cs. induction cs as [|c cs IH]; [done|]. cbn [map].
      by rewrite filter_cons_False. }
    rewrite Hb. by destruct (http.failure (http.RespBody resp)).
  - handleHTTPS_paths ps env hj r0; done.
Qed.

Lemma EvLog_bodies l cs : EvLog l ∉ map EvBody cs.
Proof.
  induction cs as [|c cs IH]; [by intros ?%elem_of_nil|].
  cbn [map]. by intros [?|?]%elem_of_cons.
Qed.

Lemma is_Log_bodies cs : filter (λ e, is_Log e = true) (map EvBody cs) = [].
Proof.
  induction cs as [|c cs IH]; [done|]. cbn [map]. by rewrite filter_cons_False.
Qed.

(** X11.  What the handlers log.  [handleHTTP] logs at most one line, and
    only once the status of an upstream response is out: the line is
    [Error copying response body: ] followed by the text of an error.
    Nothing is logged for a request that is rejected, when
    [http.NewRequest] fails, when [client.Do] fails, or when
    [w.WriteHeader] panics.  [handleHTTPS] logs nothing. *)
Theorem handlers_log (ps : ProxyServer) (env : Env)
    (hj : option bool) (r0 : http.Request) :
  (∀ line, EvLog line ∈ trace (final (handleHTTP ps env (inbound hj r0))) →
           ∃ resp e, upstream_response ps env r0 = Some resp
                     ∧ http.validWriteHeaderCode (http.StatusCode resp) = true
                     ∧ line = "Error copying response body: " +:+ e)
  ∧ (length (filter (λ e, is_Log e = true)
               (trace (final (handleHTTP ps env (inbound hj r0))))) <= 1)%nat
  ∧ (upstream_response ps env r0 = None →
       ∀ line, EvLog line ∉ trace (final (handleHTTP ps env (inbound hj r0))))
  ∧ (∀ line, EvLog line ∉ trace (final (handleHTTPS ps env (inbound hj r0)))).
Proof.
  assert (Hlog : ∀ line,
    EvLog line ∈ trace (final (handleHTTP ps env (inbound hj r0))) →
    ∃ resp e, upstream_response ps env r0 = Some resp
              ∧ http.validWriteHeaderCode (http.StatusCode resp) = true
              ∧ line = "Error copying response body: " +:+ e).
  { intros line. unfold upstream_response.
    handleHTTP_paths ps env hj r0; cbn [final trace mbind option_bind];
      rewrite ?Hdo.
    - rewrite !elem_of_app, !elem_of_cons, !elem_of_nil.
      intros [[?|[?|?]]|[Hin|[Hin|[?|?]]]]; try done.
      { by apply EvLog_bodies in Hin. }
      destruct (http.failure (http.RespBody resp)) as [e|];
        [|by apply elem_of_nil in Hin].
      apply list_elem_of_singleton in Hin. injection Hin as ->.
      by exists resp, e.
    - by intros [?|[?|?%elem_of_nil]%elem_of_cons]%elem_of_cons.
    - rewrite !elem_of_cons, elem_of_nil. by intros [?|[?|[?|?]]].
    - rewrite !elem_of_cons, elem_of_nil. by intros [?|[?|?]].
    - rewrite !elem_of_cons, elem_of_nil. by intros [?|[?|?]]. }
  split; [exact Hlog|]. split; [|split].
  - handleHTTP_paths ps env hj r0; cbn [final trace];
      rewrite ?filter_app, ?length_app, ?is_Log_bodies;
      try destruct (http.failure (http.RespBody resp)); unfold copy_log;
      repeat first [ rewrite filter_cons_False by done
                   | rewrite filter_cons_True by done
                   | rewrite filter_nil ];
      cbn [length]; lia.
  - intros Hnone line Hin. destruct (Hlog line Hin) as (resp & e & Hsome & _).
    congruence.
  - intros line. handleHTTPS_paths ps env hj r0; cbn [final trace];
      rewrite !elem_of_cons, elem_of_nil; intuition discriminate.
Qed.

(** ** The trace is written, never read *)

Section Framing.

Lemma framed_ret {A} (a : A) : framed (mret a).
Proof. done. Qed.

Lemma framed_bind {A B} (m : M A) (k : A → M B) :
  framed m → (∀ a, framed (k a)) → framed (m ≫= k).
Proof.
  intros Hm Hk tr s. unfold mbind, M_bind. rewrite Hm.
  destruct (m s) as [a s'|v s']; cbn [result_after]; [apply Hk|done].
Qed.

Lemma framed_get_w : framed get_w.
Proof. done. Qed.

Lemma framed_get_r : framed get_r.
Proof. done. Qed.

Lemma framed_set_w w' : framed (set_w w').
Proof. done. Qed.

Lemma framed_set_r r' : framed (set_r r').
Proof. done. Qed.

Lemma framed_defer c : framed (defer c).
Proof. done. Qed.

Lemma framed_panic {A} v : framed (panic (A := A) v).
Proof. done. Qed.

Lemma framed_emit e : framed (emit e).
Proof.
  intros tr s. unfold emit, result_after, after_trace. cbn [w r defers trace].
  by rewrite app_assoc.
Qed.

Lemma run_defers_after tr s :
  run_defers (after_trace tr s) = after_trace tr (run_defers s).
Proof.
  unfold run_defers, after_trace. cbn [w r defers trace]. by rewrite app_assoc.
Qed.

Lemma framed_call {A} (body : M A) : framed body → framed (call body).
Proof.
  intros Hb tr s. unfold call. rewrite Hb.
  destruct (body s); cbn [result_after]; by rewrite run_defers_after.
Qed.

Lemma framed_for_range {A} (l : list A) (body : A → M unit) :
  (∀ x, framed (body x)) → framed (for_range l body).
Proof.
  intros Hb. induction l as [|x l IH]; [apply framed_ret|].
  cbn [for_range]. apply framed_bind; [apply Hb|]. by intros _.
Qed.

End Framing.

Ltac framed_step :=
  match goal with
  | |- framed (mret _) => apply framed_ret
  | |- framed (_ ≫= _) => apply framed_bind; [|intros ?]
  | |- framed get_w => apply framed_get_w
  | |- framed get_r => apply framed_get_r
  | |- framed (set_w _) => apply framed_set_w
  | |- framed (set_r _) => apply framed_set_r
  | |- framed (defer _) => apply framed_defer
  | |- framed (panic _) => apply framed_panic
  | |- framed (emit _) => apply framed_emit
  | |- framed (call _) => apply framed_call
  | |- framed (for_range _ _) => apply framed_for_range; intros ?
  | |- framed (if ?b then _ else _) => destruct b
  | |- framed (match ?x with _ => _ end) => destruct x
  end.

Ltac framed_steps := repeat framed_step.

Section FramedCalls.

Lemma framed_w_Header_Set k v : framed (w_Header_Set k v).
Proof. unfold w_Header_Set. framed_steps. Qed.

Lemma framed_w_Header_Add k v : framed (w_Header_Add k v).
Proof. unfold w_Header_Add. framed_steps. Qed.

Lemma framed_WriteHeader code : framed (WriteHeader code).
Proof. unfold WriteHeader. framed_steps. Qed.

Lemma framed_Write data : framed (Write data).
Proof.
  unfold Write. apply framed_bind; [apply framed_WriteHeader|intros _].
  framed_steps.
Qed.

Lemma framed_http_Error e code : framed (http_Error e code).
Proof.
  unfold http_Error.
  repeat first [ apply framed_w_Header_Set | apply framed_WriteHeader
               | apply framed_Write | apply framed_bind; [|intros _] ].
Qed.

Lemma framed_reject : framed reject.
Proof.
  unfold reject. apply framed_bind; [apply framed_w_Header_Set|intros _].
  apply framed_http_Error.
Qed.

Lemma framed_r_Header_Del k : framed (r_Header_Del k).
Proof. unfold r_Header_Del. framed_steps. Qed.

Lemma framed_Do env client q : framed (Do env client q).
Proof. unfold Do. framed_steps. Qed.

Lemma framed_DialTimeout env network address timeout :
  framed (DialTimeout env network address timeout).
Proof. unfold DialTimeout. framed_steps. Qed.

Lemma framed_copy_response_headers entries : framed (copy_response_headers entries).
Proof.
  unfold copy_response_headers. apply framed_for_range. intros entry.
  apply framed_for_range. intros value. apply framed_w_Header_Add.
Qed.

Lemma framed_copy_chunks cs ending : framed (copy_chunks cs ending).
Proof.
  induction cs as [|c cs IH]; [apply framed_ret|].
  cbn [copy_chunks]. apply framed_bind; [|by intros _].
  destruct (0 <? String.length c)%nat; [apply framed_Write|apply framed_ret].
Qed.

Lemma framed_handleHTTP_body ps env : framed (handleHTTP_body ps env).
Proof.
  unfold handleHTTP_body.
  apply framed_bind; [apply framed_get_r|intros r0].
  destruct (negb (authenticateRequest ps r0)); [apply framed_reject|].
  apply framed_bind; [apply framed_r_Header_Del|intros _].
  apply framed_bind; [apply framed_r_Header_Del|intros _].
  apply framed_bind; [apply framed_get_r|intros r1].
  destruct (NewRequest env (http.Method r1) (http.URL r1) (http.Body r1));
    [|apply framed_http_Error].
  apply framed_bind; [apply framed_Do|intros [resp|]]; [|apply framed_http_Error].
  apply framed_bind; [apply framed_defer|intros _].
  apply framed_bind; [apply framed_copy_response_headers|intros _].
  apply framed_bind; [apply framed_WriteHeader|intros _].
  apply framed_bind; [apply framed_copy_chunks|intros [e|]].
  - apply framed_emit.
  - apply framed_ret.
Qed.

Lemma framed_handleHTTP ps env : framed (handleHTTP ps env).
Proof. apply framed_call, framed_handleHTTP_body. Qed.

Lemma framed_handleHTTPS_body ps env : framed (handleHTTPS_body ps env).
Proof.
  unfold handleHTTPS_body.
  apply framed_bind; [apply framed_get_r|intros r0].
  destruct (negb (authenticateRequest ps r0)).
  { apply framed_bind; [apply framed_reject|intros _]. apply framed_ret. }
  apply framed_bind; [apply framed_DialTimeout|intros ok].
  destruct (negb ok).
  { apply framed_bind; [apply framed_http_Error|intros _]. apply framed_ret. }
  apply framed_bind; [apply framed_defer|intros _].
  apply framed_bind; [apply framed_WriteHeader|intros _].
  apply framed_bind; [apply framed_get_w|intros w0].
  apply framed_bind; [apply framed_emit|intros _].
  destruct (http.hijacker w0) as [hijack_ok|].
  - apply framed_bind; [apply framed_emit|intros _].
    destruct (negb hijack_ok).
    + apply framed_bind; [apply framed_http_Error|intros _]. apply framed_ret.
    + apply framed_bind; [apply framed_defer|intros _].
      apply framed_bind; [apply framed_emit|intros _]. apply framed_ret.
  - apply framed_bind; [apply framed_http_Error|intros _]. apply framed_ret.
Qed.

Lemma framed_handleHTTPS ps env : framed (handleHTTPS ps env).
Proof.
  intros tr s. unfold handleHTTPS. rewrite framed_handleHTTPS_body.
  destruct (handleHTTPS_body ps env s) as [[|] s'|v s']; cbn [result_after];
    by rewrite ?run_defers_after.
Qed.

End FramedCalls.

Lemma ServeHTTP_unfold ps env hj r0 :
  ServeHTTP ps env (inbound hj r0)
  = result_after [EvLog (request_line r0)]
      (if String.eqb (http.Method r0) "CONNECT"
       then handleHTTPS ps env (inbound hj r0)
       else (handleHTTP ps env;; mret None) (inbound hj r0)).
Proof.
  unfold ServeHTTP.
  unfold mbind at 1 2, M_bind at 1 2, get_r at 1, log_Printf, emit.
  cbn [inbound enter w r defers trace app]. fold (request_line r0).
  change {| w := http.newWriter hj; r := r0; defers := [];
            trace := [EvLog (request_line r0)] |}
    with (after_trace [EvLog (request_line r0)] (inbound hj r0)).
  destruct (String.eqb (http.Method r0) "CONNECT").
  - apply framed_handleHTTPS.
  - apply (framed_bind (handleHTTP ps env) (λ _, mret None)).
    + apply framed_handleHTTP.
    + intros _. apply framed_ret.
Qed.

Lemma final_result_after {A} tr (res : Result A) :
  final (result_after tr res) = after_trace tr (final res).
Proof. by destruct res. Qed.

Lemma returned_result_after {A} tr (res : Result A) :
  returned (result_after tr res) = returned res.
Proof. by destruct res. Qed.

Lemma tunnel_event_bodies cs : Forall (λ e, tunnel_event e = false) (map EvBody cs).
Proof. induction cs; by constructor. Qed.

Lemma handleHTTP_no_tunnel_event ps env hj r0 :
  Forall (λ e, tunnel_event e = false)
    (trace (final (handleHTTP ps env (inbound hj r0)))).
Proof.
  handleHTTP_paths ps env hj r0; cbn [final trace]; try by repeat constructor.
  repeat first [ apply Forall_app; split | apply tunnel_event_bodies ];
    try by repeat constructor.
  destruct (http.failure (http.RespBody resp)); by repeat constructor.
Qed.

Lemma handleHTTPS_no_Do ps env hj r0 :
  Forall (λ e, is_Do e = false)
    (trace (final (handleHTTPS ps env (inbound hj r0)))).
Proof.
  handleHTTPS_paths ps env hj r0; cbn [final trace]; by repeat constructor.
Qed.

(** X12.  [ServeHTTP] logs the request line and then does what the handler
    of the request does on its own: [handleHTTPS] for the method [CONNECT],
    in this case, [handleHTTP] for every other method.  The result, the
    writer, the request and the deferred calls are those of the handler, and
    the trace is the log line followed by the trace of the handler.  A
    [CONNECT] makes no outbound request; another method makes no dial, no
    takeover and no goroutine. *)
Theorem ServeHTTP_dispatch (ps : ProxyServer) (env : Env)
    (hj : option bool) (r0 : http.Request) :
  let served := ServeHTTP ps env (inbound hj r0) in
  let plain := handleHTTP ps env (inbound hj r0) in
  let tunnel := handleHTTPS ps env (inbound hj r0) in
  (http.Method r0 = "CONNECT" →
     returned served = returned tunnel
     ∧ w (final served) = w (final tunnel)
     ∧ r (final served) = r (final tunnel)
     ∧ defers (final served) = defers (final tunnel)
     ∧ trace (final served) = EvLog (request_line r0) :: trace (final tunnel)
     ∧ Forall (λ e, is_Do e = false) (trace (final served)))
  ∧ (http.Method r0 ≠ "CONNECT" →
     returned served = (λ _, None) <$> returned plain
     ∧ w (final served) = w (final plain)
     ∧ r (final served) = r (final plain)
     ∧ defers (final served) = defers (final plain)
     ∧ trace (final served) = EvLog (request_line r0) :: trace (final plain)
     ∧ Forall (λ e, tunnel_event e = false) (trace (final served))).
Proof.
  intros served plain tunnel. subst served. rewrite ServeHTTP_unfold. split.
  - intros ->%String.eqb_eq. fold tunnel.
    rewrite returned_result_after, final_result_after.
    cbn [after_trace w r defers trace app]. repeat split.
    constructor; [done|]. apply handleHTTPS_no_Do.
  - intros Hm%String.eqb_neq. rewrite Hm.
    rewrite returned_result_after, final_result_after.
    unfold mbind, M_bind. fold plain.
    assert (Hnone : Forall (λ e, tunnel_event e = false) (trace (final plain)))
      by apply handleHTTP_no_tunnel_event.
    destruct plain as [[] s|v s]; cbn [returned final fmap option_fmap option_map
      after_trace w r defers trace app mret M_ret] in *; repeat split;
      by constructor.
Qed.

Lemma ServeHTTP_dispatch_witness :
  trace (final (ServeHTTP proxy0 env_up (inbound (Some true) connect0)))
  = EvLog (request_line connect0)
    :: trace (final (handleHTTPS proxy0 env_up (inbound (Some true) connect0))).
Proof.
  pose proof (proj1 (ServeHTTP_dispatch proxy0 env_up (Some true) connect0) eq_refl)
    as (_ & _ & _ & _ & Htrace & _).
  exact Htrace.
Defined.

(** ** A tunnel in which bytes move *)

Lemma step_in_copy u sh sg :
  in_copy sh = true → in_copy sg = true →
  ∃ sh' sg', step u Moved (session sh sg) = Some (session sh' sg')
             ∧ in_copy sh' = true ∧ in_copy sg' = true.
Proof.
  intros Hh Hg.
  destruct u, sh, sg; try done;
    first [ by exists Reading, Reading | by exists Reading, Writing
          | by exists Writing, Reading | by exists Writing, Writing ].
Qed.

Lemma run_in_copy sched sh sg :
  Forall (λ x, is_Ended x.2 = false) sched →
  in_copy sh = true → in_copy sg = true →
  ∃ sh' sg', run sched (session sh sg) = Some (session sh' sg')
             ∧ in_copy sh' = true ∧ in_copy sg' = true.
Proof.
  intros Hsched. revert sh sg.
  induction Hsched as [|[u io] sched Hio _ IH]; intros sh sg Hh Hg.
  - by exists sh, sg.
  - destruct io; [|done]. cbn [run].
    destruct (step_in_copy u sh sg Hh Hg) as (sh1 & sg1 & -> & Hh1 & Hg1).
    by apply IH.
Qed.

(** X13.  An established tunnel in which every read and every write moves
    bytes goes on: every such schedule can run, both endpoints stay open and
    both units stay in their copy.  An endpoint is closed only after a read
    or a write has ended. *)
Theorem tunnel_persists (ps : ProxyServer) (env : Env) (hj : option bool)
    (r0 : http.Request) (t0 : Tunnel) (s0 : World) (sched : list (ExecUnit * IO)) :
  handleHTTPS ps env (inbound hj r0) = Ret (Some t0) s0 →
  (Forall (λ x, is_Ended x.2 = false) sched →
     ∃ t, run sched t0 = Some t
          ∧ clientClosed t = false ∧ destClosed t = false
          ∧ copying (handler t) = true ∧ copying (goroutine t) = true)
  ∧ (∀ t c, run sched t0 = Some t → is_closed t c = true →
       Exists (λ x, is_Ended x.2 = true) sched).
Proof.
  intros Hstart. apply handleHTTPS_session in Hstart as (_ & _ & _ & ->).
  assert (Hopen : Forall (λ x, is_Ended x.2 = false) sched →
     ∃ t, run sched (session Reading Reading) = Some t
          ∧ clientClosed t = false ∧ destClosed t = false
          ∧ copying (handler t) = true ∧ copying (goroutine t) = true).
  { intros Hsched.
    destruct (run_in_copy sched Reading Reading Hsched eq_refl eq_refl)
      as (sh & sg & Hrun & Hh & Hg).
    exists (session sh sg). split; [done|]. by destruct sh, sg. }
  split; [done|].
  intros t c Hrun Hclosed.
  destruct (decide (Exists (λ x, is_Ended x.2 = true) sched)) as [|Hnone]; [done|].
  apply not_Exists_Forall in Hnone; [|intros x; apply _].
  destruct Hopen as (t' & Hrun' & Hc & Hd & _).
  { eapply Forall_impl; [exact Hnone|]. intros x Hx. cbn in Hx.
    by destruct (is_Ended x.2). }
  rewrite Hrun in Hrun'. injection Hrun' as <-.
  destruct c; cbn [is_closed] in Hclosed; congruence.
Qed.

Lemma tunnel_persists_witness :
  ∃ t, run [(Handler, Moved); (Goroutine, Moved); (Handler, Moved)]
           (tunnel_start [CloseConn clientConn; CloseConn destConn]) = Some t
       ∧ clientClosed t = false ∧ destClosed t = false
       ∧ copying (handler t) = true ∧ copying (goroutine t) = true.
Proof.
  apply (proj1 (tunnel_persists proxy0 env_up (Some true) connect0
                  (tunnel_start [CloseConn clientConn; CloseConn destConn]) _
                  [(Handler, Moved); (Goroutine, Moved); (Handler, Moved)]
                  handleHTTPS_connect0)).
  repeat constructor.
Defined.

(** ** The start of the program *)

Lemma setting_nonempty os name default :
  default ≠ EmptyString → setting os name default ≠ EmptyString.
Proof.
  intros Hd. unfold setting.
  by destruct (String.eqb_spec (Getenv os name) "").
Qed.

Lemma main_unfold os :
  main os
  = [Printed ("=== HTTP Proxy Server ===" +:+ newline);
     Printed ("Port: " +:+ port (served_by os) +:+ newline);
     Printed ("Username: " +:+ username (served_by os) +:+ newline);
     Printed ("Password: "
              +:+ strings_Repeat "*" (String.length (password (served_by os)))
              +:+ newline);
     Printed ("========================" +:+ newline +:+ newline);
     Logged ("Starting HTTP Proxy Server on port " +:+ port (served_by os));
     Logged ("Username: " +:+ username (served_by os));
     Logged "Server ready to accept connections...";
     Listening (":" +:+ port (served_by os)) (served_by os)]
    ++ match ListenAndServe os (":" +:+ port (served_by os)) with
       | Some e => [Fatal e]
       | None => []
       end.
Proof.
  unfold main. cbv zeta.
  fold (setting os "PROXY_USERNAME" "admin") (setting os "PROXY_PASSWORD" "password123")
       (setting os "PROXY_PORT" "8080").
  pose proof (setting_nonempty os "PROXY_USERNAME" "admin" ltac:(done)) as Hu.
  pose proof (setting_nonempty os "PROXY_PASSWORD" "password123" ltac:(done)) as Hp.
  apply String.eqb_neq in Hu, Hp. rewrite Hu, Hp. reflexivity.
Qed.

Lemma length_Repeat_byte c n :
  String.length (strings_Repeat (String c EmptyString) n) = n.
Proof.
  induction n as [|n IH]; [done|].
  change (S (String.length (strings_Repeat (String c EmptyString) n)) = S n).
  by rewrite IH.
Qed.

Lemma Repeat_byte_only c n x :
  x ∈ list_ascii_of_string (strings_Repeat (String c EmptyString) n) → x = c.
Proof.
  induction n as [|n IH]; [by intros ?%elem_of_nil|].
  change (x ∈ c :: list_ascii_of_string (strings_Repeat (String c EmptyString) n)
          → x = c).
  intros [->|Hx]%elem_of_cons; [done|by apply IH].
Qed.

Lemma main_Listening os addr ps :
  Listening addr ps ∈ main os ↔ addr = ":" +:+ port (served_by os) ∧ ps = served_by os.
Proof.
  rewrite main_unfold, elem_of_app. split.
  - intros [Hin|Hin].
    + repeat (apply elem_of_cons in Hin as [Hin|Hin]; [by inversion Hin|]).
      by apply elem_of_nil in Hin.
    + destruct (ListenAndServe os _); [|by apply elem_of_nil in Hin].
      by apply list_elem_of_singleton in Hin.
  - intros [-> ->]. left. repeat (first [by left | right]).
Qed.

Lemma main_Fatal os line :
  Fatal line ∈ main os ↔ ListenAndServe os (":" +:+ port (served_by os)) = Some line.
Proof.
  rewrite main_unfold, elem_of_app. split.
  - intros [Hin|Hin].
    + repeat (apply elem_of_cons in Hin as [Hin|Hin]; [by inversion Hin|]).
      by apply elem_of_nil in Hin.
    + destruct (ListenAndServe os _); [|by apply elem_of_nil in Hin].
      apply list_elem_of_singleton in Hin. by injection Hin as ->.
  - intros ->. right. by apply list_elem_of_singleton.
Qed.

(** X14.  [main] always starts the server.  Each setting is the environment
    variable, or the default when the variable is empty or not set, so that
    neither the user name nor the password is empty and the check that
    follows cannot fail.  [ListenAndServe] is called, once, on the address
    made of a colon and the port, with the server of these settings as the
    handler; the one fatal exit is the error [ListenAndServe] returns. *)
Theorem main_starts_server (os : Os) :
  let ps := served_by os in
  (∀ name default,
     (Getenv os name = EmptyString → setting os name default = default)
     ∧ (Getenv os name ≠ EmptyString → setting os name default = Getenv os name))
  ∧ username ps = setting os "PROXY_USERNAME" "admin"
  ∧ password ps = setting os "PROXY_PASSWORD" "password123"
  ∧ port ps = setting os "PROXY_PORT" "8080"
  ∧ username ps ≠ EmptyString ∧ password ps ≠ EmptyString ∧ port ps ≠ EmptyString
  ∧ Listening (":" +:+ port ps) ps ∈ main os
  ∧ (∀ addr ps', Listening addr ps' ∈ main os → addr = ":" +:+ port ps ∧ ps' = ps)
  ∧ length (filter (λ o, is_Listening o = true) (main os)) = 1%nat
  ∧ (∀ line, Fatal line ∈ main os ↔ ListenAndServe os (":" +:+ port ps) = Some line).
Proof.
  intros ps. subst ps. split.
  { intros name default. unfold setting.
    destruct (String.eqb_spec (Getenv os name) ""); by split. }
  do 3 (split; [done|]).
  do 3 (split; [by apply setting_nonempty|]).
  split; [by apply main_Listening|].
  split; [intros addr ps'; apply main_Listening|].
  split; [|apply main_Fatal].
  rewrite main_unfold, filter_app, length_app.
  by destruct (ListenAndServe os _).
Qed.

(** X15.  The password is not in what [main] and [Start] print and log: two
    runs with the same user name, port and listen error and with passwords
    of the same length print and log the same.  The password line shows a
    mask of as many asterisks as the password has bytes. *)
Theorem password_masked (os1 os2 : Os) :
  setting os1 "PROXY_USERNAME" "admin" = setting os2 "PROXY_USERNAME" "admin" →
  setting os1 "PROXY_PORT" "8080" = setting os2 "PROXY_PORT" "8080" →
  (∀ addr, ListenAndServe os1 addr = ListenAndServe os2 addr) →
  String.length (setting os1 "PROXY_PASSWORD" "password123")
  = String.length (setting os2 "PROXY_PASSWORD" "password123") →
  omap shown (main os1) = omap shown (main os2)
  ∧ ∃ mask, Printed ("Password: " +:+ mask +:+ newline) ∈ main os1
            ∧ String.length mask
              = String.length (setting os1 "PROXY_PASSWORD" "password123")
            ∧ ∀ c, c ∈ list_ascii_of_string mask → c = "*"%char.
Proof.
  intros Hu Hport Hl Hlen. rewrite !main_unfold. unfold served_by, NewProxyServer.
  cbn [username password port]. rewrite Hu, Hport, Hl, Hlen. split; [done|].
  eexists. split; [|split].
  - apply elem_of_app. left. do 3 right. left.
  - apply length_Repeat_byte.
  - intros c. apply Repeat_byte_only.
Qed.

Lemma password_masked_witness :
  omap shown (main (os_with "alice" "secret-one" "3128" (Some "address in use")))
  = omap shown (main (os_with "alice" "SECRET_TWO" "3128" (Some "address in use"))).
Proof.
  exact (proj1 (password_masked
                  (os_with "alice" "secret-one" "3128" (Some "address in use"))
                  (os_with "alice" "SECRET_TWO" "3128" (Some "address in use"))
                  eq_refl eq_refl (λ _, eq_refl) eq_refl)).
Defined.

(** X16.  The server [main] starts accepts the credential [CreateBasicAuth]
    makes of its own settings exactly when the user name has no colon; with
    the default user name it does. *)
Theorem main_serves_authenticator (os : Os) (addr : string) (ps : ProxyServer)
    (r0 : http.Request) :
  Listening addr ps ∈ main os →
  credential r0 = CreateBasicAuth (setting os "PROXY_USERNAME" "admin")
                    (setting os "PROXY_PASSWORD" "password123") →
  (authenticateRequest ps r0 = true
   ↔ ¬ has_colon (setting os "PROXY_USERNAME" "admin"))
  ∧ (Getenv os "PROXY_USERNAME" = EmptyString → authenticateRequest ps r0 = true).
Proof.
  intros Hin Hcred.
  assert (Hps : ps = served_by os).
  { by apply main_Listening in Hin as [_ ->]. }
  subst ps.
  assert (Hiff : authenticateRequest (served_by os) r0 = true
                 ↔ ¬ has_colon (setting os "PROXY_USERNAME" "admin")).
  { rewrite (CreateBasicAuth_payload _ _ _ _ Hcred).
    unfold splits_at_first_colon, served_by. cbn [NewProxyServer username password].
    intuition. }
  split; [done|]. intros Hunset. apply Hiff. unfold setting. rewrite Hunset.
  exact no_colon_admin.
Qed.

Lemma Listening_default :
  Listening ":8080" proxy0 ∈ main (os_with "" "" "" None).
Proof. vm_compute. do 8 right. left. Qed.

Lemma main_serves_authenticator_witness : authenticateRequest proxy0 get0 = true.
Proof.
  exact (proj2 (main_serves_authenticator (os_with "" "" "" None) ":8080" proxy0 get0
                  Listening_default eq_refl) eq_refl).
Defined.

(** ** The copy loops on any header map *)

Section CopyLoops.

Lemma values_Add (h : http.MIMEHeader) k v name :
  http.values (http.Add h k v) name
  = if decide (textproto.CanonicalMIMEHeaderKey k = name)
    then http.values h name ++ [v] else http.values h name.
Proof.
  unfold http.Add, http.values at 1.
  destruct (decide (textproto.CanonicalMIMEHeaderKey k = name)) as [<-|Hne].
  - by rewrite lookup_insert_eq.
  - by rewrite lookup_insert_ne.
Qed.

Lemma values_add_values (h : http.MIMEHeader) k vs name :
  http.values (foldl (λ h value, http.Add h k value) h vs) name
  = if decide (textproto.CanonicalMIMEHeaderKey k = name)
    then http.values h name ++ vs else http.values h name.
Proof.
  revert h. induction vs as [|v vs IH]; intros h; cbn [foldl].
  - destruct (decide _); by rewrite ?app_nil_r.
  - rewrite IH, values_Add. destruct (decide _); [|done].
    by rewrite <- app_assoc.
Qed.

Lemma values_under_cons name k vs entries :
  values_under name ((k, vs) :: entries)
  = (if decide (textproto.CanonicalMIMEHeaderKey k = name) then vs else [])
    ++ values_under name entries.
Proof.
  unfold values_under. destruct (decide _) as [Hk|Hk].
  - by rewrite filter_cons_True.
  - by rewrite filter_cons_False.
Qed.

Lemma values_add_all entries (h : http.MIMEHeader) name :
  http.values (add_all entries h) name = http.values h name ++ values_under name entries.
Proof.
  revert h. induction entries as [|[k vs] entries IH]; intros h.
  - unfold values_under. cbn. by rewrite app_nil_r.
  - unfold add_all. cbn [foldl fst snd].
    fold (add_all entries (foldl (λ h value, http.Add h k value) h vs)).
    rewrite IH, values_add_values, values_under_cons.
    destruct (decide _); [by rewrite <- app_assoc|done].
Qed.

(** The loops leave no name with an empty list of values. *)
Lemma Add_nonempty (h : http.MIMEHeader) k v :
  (∀ name vs, h !! name = Some vs → vs ≠ []) →
  ∀ name vs, http.Add h k v !! name = Some vs → vs ≠ [].
Proof.
  intros Hh name vs. unfold http.Add.
  intros [[_ <-]|[_ Hl]]%lookup_insert_Some; [|by apply (Hh name)].
  by destruct (http.values h _).
Qed.

Lemma add_all_nonempty entries (h : http.MIMEHeader) :
  (∀ name vs, h !! name = Some vs → vs ≠ []) →
  ∀ name vs, add_all entries h !! name = Some vs → vs ≠ [].
Proof.
  revert h. induction entries as [|[k vs0] entries IH]; intros h Hh; [done|].
  unfold add_all. cbn [foldl fst snd].
  apply IH. clear IH. revert h Hh.
  induction vs0 as [|v vs0 IH]; intros h Hh; [done|].
  cbn [foldl]. apply IH. by apply Add_nonempty.
Qed.

Lemma concat_Permutation {A} (ls ls' : list (list A)) :
  ls ≡ₚ ls' → concat ls ≡ₚ concat ls'.
Proof.
  induction 1 as [|x l l' _ IH|x y l|l l' l'' _ IH1 _ IH2]; cbn [concat].
  - done.
  - by rewrite IH.
  - rewrite !app_assoc. f_equiv. apply Permutation_app_comm.
  - by rewrite IH1.
Qed.

Lemma values_under_Permutation name entries entries' :
  entries ≡ₚ entries' → values_under name entries ≡ₚ values_under name entries'.
Proof.
  intros Hp. unfold values_under. apply concat_Permutation.
  apply Permutation_map. by rewrite Hp.
Qed.

Lemma values_nil_None (h : http.MIMEHeader) name :
  (∀ vs, h !! name = Some vs → vs ≠ []) →
  h !! name = None ↔ http.values h name = [].
Proof.
  intros Hh. unfold http.values. destruct (h !! name) as [vs|] eqn:Hl; [|done].
  cbn. split; [done|]. intros ->. by destruct (Hh [] eq_refl).
Qed.

End CopyLoops.

(** X17.  The two copy loops of [handleHTTP] on any header maps.  In the
    outbound request, and in the header map of the writer, a name holds the
    values of the visited entries whose name has this canonical form, in the
    order of the visit; a name is absent exactly when there is no such value,
    so that an entry without values is not copied.  Up to their order these
    are the values of the entries of the map, in whatever order [range]
    visits it. *)
Theorem headers_copied_by_canonical_name (ps : ProxyServer) (env : Env)
    (hj : option bool) (r0 q : http.Request) (resp : http.Response) :
  authenticateRequest ps r0 = true →
  proxy_request env r0 = Some q →
  client_Do env (30 * Second) q = Some resp →
  let s := final (handleHTTP ps env (inbound hj r0)) in
  let inbound_entries := range_order env (stripped (http.Header r0)) in
  let upstream_entries := range_order env (http.RespHeader resp) in
  EvDo (30 * Second) q ∈ trace s
  ∧ (∀ name, http.values (http.Header q) name = values_under name inbound_entries)
  ∧ (∀ name, http.Header q !! name = None ↔ values_under name inbound_entries = [])
  ∧ (∀ name, http.values (http.handlerHeader (w s)) name
             = values_under name upstream_entries)
  ∧ (∀ name, http.handlerHeader (w s) !! name = None
             ↔ values_under name upstream_entries = [])
  ∧ (range_ok env →
       ∀ name,
         http.values (http.Header q) name
         ≡ₚ values_under name (map_to_list (stripped (http.Header r0)))
         ∧ http.values (http.handlerHeader (w s)) name
           ≡ₚ values_under name (map_to_list (http.RespHeader resp))).
Proof.
  intros Hauth Hq Hdo s inbound_entries upstream_entries.
  assert (Hhq : http.Header q = add_all inbound_entries ∅).
  { unfold proxy_request in Hq.
    destruct (NewRequest env (http.Method r0) (http.URL r0) (http.Body r0))
      as [q0|] eqn:Hnew; [|done].
    injection Hq as <-. rewrite copy_request_headers_run.
    unfold NewRequest in Hnew.
    destruct (negb _); [done|]. destruct (url_Parse env _); [|done].
    by injection Hnew as <-. }
  assert (Hhw : http.handlerHeader (w s) = add_all upstream_entries ∅
                ∧ EvDo (30 * Second) q ∈ trace s).
  { subst s.
    destruct (http.validWriteHeaderCode (http.StatusCode resp)) eqn:Hcode.
    - rewrite (handleHTTP_relays ps env hj r0 q resp Hauth Hq Hdo Hcode).
      split; [done|]. cbn [final trace]. apply elem_of_app. left. by left.
    - rewrite (handleHTTP_invalid_status ps env hj r0 q resp Hauth Hq Hdo Hcode).
      split; [done|]. by left. }
  destruct Hhw as [Hhw Htrace]. clearbody s. rewrite Hhq, Hhw.
  assert (Hne : ∀ entries name vs,
            add_all entries (∅ : http.MIMEHeader) !! name = Some vs → vs ≠ []).
  { intros entries. apply add_all_nonempty. intros name vs.
    by rewrite lookup_empty. }
  split; [done|].
  split; [intros name; by rewrite values_add_all|].
  split.
  { intros name. rewrite values_nil_None by apply Hne. by rewrite values_add_all. }
  split; [intros name; by rewrite values_add_all|].
  split.
  { intros name. rewrite values_nil_None by apply Hne. by rewrite values_add_all. }
  intros Hrange name. rewrite !values_add_all. cbn [app].
  split; apply values_under_Permutation, Hrange.
Qed.

Lemma authenticate_get0 : authenticateRequest proxy0 get0 = true.
Proof. vm_compute. reflexivity. Qed.

Lemma client_Do_get0 : client_Do env_up (30 * Second) outbound0 = Some response0.
Proof. reflexivity. Qed.

Lemma headers_copied_by_canonical_name_witness :
  http.values (http.Header outbound0) "Custom-Header"
  = values_under "Custom-Header" (range_order env_up (stripped (http.Header get0)))
  ∧ (http.Header outbound0 !! "Proxy-Authorization" = None
     ↔ values_under "Proxy-Authorization"
         (range_order env_up (stripped (http.Header get0))) = []).
Proof.
  pose proof (headers_copied_by_canonical_name proxy0 env_up None get0 outbound0
                response0 authenticate_get0 proxy_request_get0 client_Do_get0)
    as (_ & Hvalues & Hnone & _).
  split; [apply Hvalues|apply Hnone].
Defined.

(** ** What the handlers do not look at *)

Lemma authenticate_credential ps r0 r0' :
  credential r0' = credential r0 →
  authenticateRequest ps r0' = authenticateRequest ps r0.
Proof. intros Hc. by rewrite !authenticate_unfold, Hc. Qed.

(** X18.  What the handlers do not look at.  [handleHTTP] does the same for
    two requests with the same method, URL, body and header map, whatever
    their hosts and remote addresses: the same result, the same writer, the
    same trace.  [handleHTTPS] does the same for two requests with the same
    host and the same credential header, whatever their methods, URLs,
    bodies and other headers. *)
Theorem handlers_ignore (ps : ProxyServer) (env : Env) (hj : option bool)
    (r0 r0' : http.Request) :
  (http.Method r0' = http.Method r0 → http.URL r0' = http.URL r0 →
   http.Body r0' = http.Body r0 → http.Header r0' = http.Header r0 →
   returned (handleHTTP ps env (inbound hj r0'))
   = returned (handleHTTP ps env (inbound hj r0))
   ∧ w (final (handleHTTP ps env (inbound hj r0')))
     = w (final (handleHTTP ps env (inbound hj r0)))
   ∧ trace (final (handleHTTP ps env (inbound hj r0')))
     = trace (final (handleHTTP ps env (inbound hj r0))))
  ∧ (http.Host r0' = http.Host r0 → credential r0' = credential r0 →
     returned (handleHTTPS ps env (inbound hj r0'))
     = returned (handleHTTPS ps env (inbound hj r0))
     ∧ w (final (handleHTTPS ps env (inbound hj r0')))
       = w (final (handleHTTPS ps env (inbound hj r0)))
     ∧ trace (final (handleHTTPS ps env (inbound hj r0')))
       = trace (final (handleHTTPS ps env (inbound hj r0)))).
Proof.
  split.
  { intros Hm Hu Hb Hh.
    assert (Hauth' : authenticateRequest ps r0' = authenticateRequest ps r0).
    { apply authenticate_credential. unfold credential. by rewrite Hh. }
    assert (Hq' : proxy_request env r0' = proxy_request env r0).
    { unfold proxy_request. by rewrite Hm, Hu, Hb, Hh. }
    destruct (authenticateRequest ps r0) eqn:Hauth.
    - destruct (proxy_request env r0) as [q|] eqn:Hq.
      + destruct (client_Do env (30 * Second) q) as [resp|] eqn:Hdo.
        * destruct (http.validWriteHeaderCode (http.StatusCode resp)) eqn:Hcode.
          -- by rewrite (handleHTTP_relays ps env hj r0 q resp Hauth Hq Hdo Hcode),
               (handleHTTP_relays ps env hj r0' q resp Hauth' Hq' Hdo Hcode).
          -- by rewrite (handleHTTP_invalid_status ps env hj r0 q resp Hauth Hq Hdo Hcode),
               (handleHTTP_invalid_status ps env hj r0' q resp Hauth' Hq' Hdo Hcode).
        * by rewrite (handleHTTP_unreachable ps env hj r0 q Hauth Hq Hdo),
            (handleHTTP_unreachable ps env hj r0' q Hauth' Hq' Hdo).
      + by rewrite (handleHTTP_construction_fails ps env hj r0 Hauth Hq),
          (handleHTTP_construction_fails ps env hj r0' Hauth' Hq').
    - by rewrite (handleHTTP_rejects ps env hj r0 Hauth),
        (handleHTTP_rejects ps env hj r0' Hauth'). }
  intros Hh Hc.
  pose proof (authenticate_credential ps r0 r0' Hc) as Hauth'.
  destruct (authenticateRequest ps r0) eqn:Hauth.
  - destruct (net_DialTimeout env "tcp" (http.Host r0) (30 * Second)) eqn:Hdial.
    + assert (Hdial' : net_DialTimeout env "tcp" (http.Host r0') (30 * Second) = true)
        by (by rewrite Hh).
      destruct hj as [[|]|].
      * rewrite (handleHTTPS_tunnels ps env r0 Hauth Hdial),
          (handleHTTPS_tunnels ps env r0' Hauth' Hdial').
        cbn [returned final w trace]. by rewrite Hh.
      * rewrite (handleHTTPS_hijack_fails ps env r0 Hauth Hdial),
          (handleHTTPS_hijack_fails ps env r0' Hauth' Hdial').
        cbn [returned final w trace]. by rewrite Hh.
      * rewrite (handleHTTPS_not_hijacker ps env r0 Hauth Hdial),
          (handleHTTPS_not_hijacker ps env r0' Hauth' Hdial').
        cbn [returned final w trace]. by rewrite Hh.
    + assert (Hdial' : net_DialTimeout env "tcp" (http.Host r0') (30 * Second) = false)
        by (by rewrite Hh).
      rewrite (handleHTTPS_dial_fails ps env hj r0 Hauth Hdial),
        (handleHTTPS_dial_fails ps env hj r0' Hauth' Hdial').
      cbn [returned final w trace]. by rewrite Hh.
  - by rewrite (handleHTTPS_rejects ps env hj r0 Hauth),
      (handleHTTPS_rejects ps env hj r0' Hauth').
Qed.

Lemma handlers_ignore_witness :
  trace (final (handleHTTP proxy0 env_up (inbound None get0_elsewhere)))
  = trace (final (handleHTTP proxy0 env_up (inbound None get0))).
Proof.
  exact (proj2 (proj2 (proj1 (handlers_ignore proxy0 env_up None get0 get0_elsewhere)
                         eq_refl eq_refl eq_refl eq_refl))).
Defined.
